(** * Read-to-the-baby: the session logic of [App.tsx]

    A shallow embedding of the callbacks of the [App] component
    ([onopen], [onmessage], [onclose], [onaudioprocess],
    [handleSpeechDetected], [togglePause] and the silence timeout), of the
    browser services they call ([setTimeout] / [clearTimeout], the output
    [AudioContext]) and of the thresholds of [constants.ts].

    Conventions.
    - Wall-clock instants ([Date.now()], timer deadlines) are integers, in
      milliseconds.  Instants of the output context ([currentTime], a
      buffer's [duration], [source.start(when)]) are integers on the
      context's own clock; the unit plays no role, the examples read it as
      milliseconds.
    - Samples are rationals: the idealised value of the floats of the
      source.
    - Every callback runs to completion before the next one is dispatched
      (one JavaScript task each), with a render of the component between
      two tasks, so that [togglePause] reads the current [isPaused].
    - A timeout runs as soon as it is due, before any event delivered at
      that instant or later; a cleared timeout never runs. *)

From Stdlib Require Import ZArith QArith Qabs Qround PArith List Bool String Lia Lqa.
Import ListNotations.

Local Open Scope Z_scope.

(** ** types.ts *)

Inductive BabyState := SLEEPING | CRYING | LISTENING | HAPPY | PAUSED.

Inductive AppMode := SETUP | ACTIVE | ERROR.

(** ** constants.ts *)

Definition SPEECH_THRESHOLD : Q := 5 # 100.
Definition SILENCE_TOLERANCE_MS : Z := 2000.

(** ** The state of the component and of its environment *)

(** Handles returned by [setTimeout] are positive integers, hence truthy:
    [if (silenceTimerRef.current)] tests the reference against [null]. *)
Definition timer_id := positive.
Definition source_id := positive.

(** An [AudioBufferSourceNode] that has been started. *)
Record chunk := mkChunk {
  src : source_id;
  start : Z;      (* the [when] of [source.start(when)] *)
  duration : Z    (* [audioBuffer.duration] *)
}.

(** The [useState] cells and the [useRef] cells of [App]. *)
Record app := mkApp {
  mode : AppMode;
  babyState : BabyState;
  volume_sq : Q;                      (* the square of [volume], see [onaudioprocess] *)
  isConnected : bool;
  isPaused : bool;
  lastSpeechTimeRef : Z;
  silenceTimerRef : option timer_id;
  nextStartTimeRef : Z;
  audioSourcesRef : list source_id;   (* a [Set], in insertion order *)
  isPausedRef : bool
}.

(** What the callbacks act upon outside the component. *)
Record env := mkEnv {
  timers : list (timer_id * Z);   (* pending timeouts, with their deadlines *)
  next_timer : timer_id;
  playing : list chunk;           (* started sources, neither ended nor stopped *)
  next_source : source_id;
  outbound : list (list Q);       (* frames whose sending is registered, see [onaudioprocess] *)
  console : list string           (* [console.error] *)
}.

Record state := mkState { st_app : app; st_env : env }.

Module Setters.

Definition with_app (f : app -> app) (s : state) : state :=
  mkState (f (st_app s)) (st_env s).
Definition with_env (f : env -> env) (s : state) : state :=
  mkState (st_app s) (f (st_env s)).

Definition setMode v := with_app (fun a =>
  mkApp v (babyState a) (volume_sq a) (isConnected a) (isPaused a)
        (lastSpeechTimeRef a) (silenceTimerRef a) (nextStartTimeRef a)
        (audioSourcesRef a) (isPausedRef a)).
Definition updBabyState (f : BabyState -> BabyState) := with_app (fun a =>
  mkApp (mode a) (f (babyState a)) (volume_sq a) (isConnected a) (isPaused a)
        (lastSpeechTimeRef a) (silenceTimerRef a) (nextStartTimeRef a)
        (audioSourcesRef a) (isPausedRef a)).
Definition setBabyState v := updBabyState (fun _ => v).
Definition setVolume_sq v := with_app (fun a =>
  mkApp (mode a) (babyState a) v (isConnected a) (isPaused a)
        (lastSpeechTimeRef a) (silenceTimerRef a) (nextStartTimeRef a)
        (audioSourcesRef a) (isPausedRef a)).
Definition setIsConnected v := with_app (fun a =>
  mkApp (mode a) (babyState a) (volume_sq a) v (isPaused a)
        (lastSpeechTimeRef a) (silenceTimerRef a) (nextStartTimeRef a)
        (audioSourcesRef a) (isPausedRef a)).
Definition setIsPaused v := with_app (fun a =>
  mkApp (mode a) (babyState a) (volume_sq a) (isConnected a) v
        (lastSpeechTimeRef a) (silenceTimerRef a) (nextStartTimeRef a)
        (audioSourcesRef a) (isPausedRef a)).
Definition set_lastSpeechTime v := with_app (fun a =>
  mkApp (mode a) (babyState a) (volume_sq a) (isConnected a) (isPaused a)
        v (silenceTimerRef a) (nextStartTimeRef a)
        (audioSourcesRef a) (isPausedRef a)).
Definition set_silenceTimer v := with_app (fun a =>
  mkApp (mode a) (babyState a) (volume_sq a) (isConnected a) (isPaused a)
        (lastSpeechTimeRef a) v (nextStartTimeRef a)
        (audioSourcesRef a) (isPausedRef a)).
Definition set_nextStartTime v := with_app (fun a =>
  mkApp (mode a) (babyState a) (volume_sq a) (isConnected a) (isPaused a)
        (lastSpeechTimeRef a) (silenceTimerRef a) v
        (audioSourcesRef a) (isPausedRef a)).
Definition set_audioSources v := with_app (fun a =>
  mkApp (mode a) (babyState a) (volume_sq a) (isConnected a) (isPaused a)
        (lastSpeechTimeRef a) (silenceTimerRef a) (nextStartTimeRef a)
        v (isPausedRef a)).
Definition set_isPausedRef v := with_app (fun a =>
  mkApp (mode a) (babyState a) (volume_sq a) (isConnected a) (isPaused a)
        (lastSpeechTimeRef a) (silenceTimerRef a) (nextStartTimeRef a)
        (audioSourcesRef a) v).

Definition set_timers v := with_env (fun e =>
  mkEnv v (next_timer e) (playing e) (next_source e) (outbound e) (console e)).
Definition set_next_timer v := with_env (fun e =>
  mkEnv (timers e) v (playing e) (next_source e) (outbound e) (console e)).
Definition set_playing v := with_env (fun e =>
  mkEnv (timers e) (next_timer e) v (next_source e) (outbound e) (console e)).
Definition set_next_source v := with_env (fun e =>
  mkEnv (timers e) (next_timer e) (playing e) v (outbound e) (console e)).
Definition set_outbound v := with_env (fun e =>
  mkEnv (timers e) (next_timer e) (playing e) (next_source e) v (console e)).
Definition set_console v := with_env (fun e =>
  mkEnv (timers e) (next_timer e) (playing e) (next_source e) (outbound e) v).

End Setters.
Import Setters.

(** ** Browser services *)

(** [clearTimeout(id)]: a cleared timeout never runs; clearing a handle that
    is no longer pending does nothing. *)
Definition clearTimeout (id : timer_id) (s : state) : state :=
  set_timers (filter (fun p => negb (Pos.eqb (fst p) id)) (timers (st_env s))) s.

(** [if (silenceTimerRef.current) clearTimeout(silenceTimerRef.current)] *)
Definition clearSilenceTimer (s : state) : state :=
  match silenceTimerRef (st_app s) with
  | Some id => clearTimeout id s
  | None => s
  end.

(** The callback of every timeout of the component:
    [() => { setBabyState(BabyState.CRYING); }]. *)
Definition silence_callback (s : state) : state := setBabyState CRYING s.

(** [silenceTimerRef.current = setTimeout(callback, SILENCE_TOLERANCE_MS)]
    evaluated at instant [now]. *)
Definition armSilenceTimer (now : Z) (s : state) : state :=
  let id := next_timer (st_env s) in
  set_silenceTimer (Some id)
    (set_next_timer (Pos.succ id)
       (set_timers (timers (st_env s) ++ [(id, now + SILENCE_TOLERANCE_MS)]) s)).

Definition pending (id : timer_id) (s : state) : bool :=
  existsb (fun p => Pos.eqb (fst p) id) (timers (st_env s)).

(** The event loop runs the callback of a timeout that is still pending, and
    forgets the timeout. *)
Definition fire (id : timer_id) (s : state) : state :=
  if pending id s then silence_callback (clearTimeout id s) else s.

(** Time passes until instant [t]: the timeouts that are due run, in the
    order they were set. *)
Definition due (t : Z) (p : timer_id * Z) : bool := snd p <=? t.

Definition advance (t : Z) (s : state) : state :=
  fold_left (fun s p => fire (fst p) s) (filter (due t) (timers (st_env s))) s.

(** [source.stop()] and the end of a source, seen from the output context. *)
Definition drop_source (id : source_id) (l : list chunk) : list chunk :=
  filter (fun c => negb (Pos.eqb (src c) id)) l.

Definition stop_source (id : source_id) (s : state) : state :=
  set_playing (drop_source id (playing (st_env s))) s.

(** [audioSourcesRef.current.forEach(source => { try { source.stop(); } catch(e) {} })] *)
Definition stop_all (ids : list source_id) (s : state) : state :=
  fold_left (fun s id => stop_source id s) ids s.

(** ** Voice activity detection (the body of [onaudioprocess], part B) *)

(** [for (i...) sum += inputData[i] * inputData[i]] *)
Definition sum_squares (inputData : list Q) : Q :=
  fold_left (fun sum x => sum + x * x)%Q inputData 0%Q.

(** [sum / inputData.length], the square of [rms]. *)
Definition mean_square (inputData : list Q) : Q :=
  (sum_squares inputData / inject_Z (Z.of_nat (List.length inputData)))%Q.

(** [rms > SPEECH_THRESHOLD] where [rms = Math.sqrt(sum / inputData.length)],
    on the rationals.  Both sides are non-negative and the square root is
    increasing, so the test is the comparison of the squares.  On an empty
    frame the source compares [NaN], which is false, as is the comparison
    of [0] here.  The source computes in doubles: its verdict can differ
    from this one where the rounding of the sum, of the quotient, of the
    square root or of the constant decides.  What is said of the verdicts
    along a run is therefore said of an arbitrary detector, see
    [onaudioprocess_with]. *)
Definition is_speech (inputData : list Q) : bool :=
  negb (Qle_bool (mean_square inputData) (SPEECH_THRESHOLD * SPEECH_THRESHOLD)).

(** ** The callbacks *)

(** [message.serverContent?.modelTurn?.parts?.[0]?.inlineData?.data]:
    the base64 text of the first part, when there is one. *)
Definition message := option string.

Section Callbacks.

(** [services/audioUtils] is not among the sources at hand.  Its decoding
    chain, [decodeAudioData(base64ToUint8Array(data), outputContext, 24000)],
    is a parameter: the duration of the decoded buffer, or [None] when the
    chain throws.  The chain suspends on no external operation, so the rest
    of [onmessage] runs in the task that received the message. *)
Variable decodeAudioData : string -> option Z.

(** [onopen] *)
Definition onopen (now : Z) (s : state) : state :=
  let s := setIsConnected true s in
  let s := setMode ACTIVE s in
  let s := setBabyState LISTENING s in
  let s := set_lastSpeechTime now s in
  let s := clearSilenceTimer s in
  armSilenceTimer now s.

(** The scheduling of one decoded buffer (the [try] block of [onmessage],
    after the decoding). *)
Definition schedule (currentTime d : Z) (s : state) : state :=
  let s := if nextStartTimeRef (st_app s) <? currentTime
           then set_nextStartTime currentTime s else s in
  let id := next_source (st_env s) in
  let s := set_next_source (Pos.succ id)
             (set_playing (playing (st_env s)
                             ++ [mkChunk id (nextStartTimeRef (st_app s)) d]) s) in
  let s := set_nextStartTime (nextStartTimeRef (st_app s) + d) s in
  set_audioSources (audioSourcesRef (st_app s) ++ [id]) s.

(** [onmessage] *)
Definition onmessage (m : message) (currentTime : Z) (s : state) : state :=
  if isPausedRef (st_app s) then s
  else match m with
       | Some (String _ _ as base64Audio) =>
           match decodeAudioData base64Audio with
           | Some d => schedule currentTime d s
           | None => set_console (console (st_env s) ++ ["Audio decode error"%string]) s
           end
       | _ => s
       end.

(** [onclose] *)
Definition onclose (s : state) : state := setIsConnected false s.

(** [handleSpeechDetected] *)
Definition handleSpeechDetected (now : Z) (s : state) : state :=
  if isPausedRef (st_app s) then s
  else
    let s := set_lastSpeechTime now s in
    let s := updBabyState (fun prev =>
               match prev with
               | CRYING | SLEEPING => LISTENING
               | _ => prev
               end) s in
    let s := clearSilenceTimer s in
    armSilenceTimer now s.

(** [processor.onaudioprocess].  [outbound] collects the frames for which
    [sessionPromise.then(session => session.sendRealtimeInput(...))] has
    registered the sending: it is carried out once the promise of the
    connection resolves, in the order of the registrations, and never when
    the promise rejects. *)
Definition onaudioprocess (inputData : list Q) (now : Z) (s : state) : state :=
  if isPausedRef (st_app s) then s
  else
    let s := set_outbound (outbound (st_env s) ++ [inputData]) s in
    let s := setVolume_sq (mean_square inputData) s in
    if is_speech inputData then handleSpeechDetected now s else s.

(** [togglePause] *)
Definition togglePause (now : Z) (s : state) : state :=
  let newState := negb (isPaused (st_app s)) in
  let s := setIsPaused newState s in
  let s := set_isPausedRef newState s in
  if newState then
    let s := clearSilenceTimer s in
    let s := setBabyState PAUSED s in
    let s := setVolume_sq 0%Q s in
    let s := stop_all (audioSourcesRef (st_app s)) s in
    let s := set_audioSources [] s in
    set_nextStartTime 0 s
  else
    let s := setBabyState LISTENING s in
    let s := set_lastSpeechTime now s in
    let s := clearSilenceTimer s in
    armSilenceTimer now s.

(** [source.onended = () => audioSourcesRef.current.delete(source)], when
    the source [id] has played to its end. *)
Definition onended (id : source_id) (s : state) : state :=
  let s := stop_source id s in
  set_audioSources (filter (fun i => negb (Pos.eqb i id)) (audioSourcesRef (st_app s))) s.

(** ** The event loop *)

Inductive event :=
| Open
| Message (m : message) (currentTime : Z)
| Close
| AudioProcess (inputData : list Q)
| TogglePause
| Ended (id : source_id).

Definition handle (e : event) (now : Z) (s : state) : state :=
  match e with
  | Open => onopen now s
  | Message m currentTime => onmessage m currentTime s
  | Close => onclose s
  | AudioProcess inputData => onaudioprocess inputData now s
  | TogglePause => togglePause now s
  | Ended id => onended id s
  end.

(** An event delivered at instant [now]: the timeouts due by then have run. *)
Definition step (now : Z) (e : event) (s : state) : state :=
  handle e now (advance now s).

Definition run (tr : list (Z * event)) (s : state) : state :=
  fold_left (fun s te => step (fst te) (snd te) s) tr s.

(** The component when it mounts at instant [t0]. *)
Definition init (t0 : Z) : state :=
  mkState (mkApp SETUP SLEEPING 0%Q false false t0 None 0 [] false)
          (mkEnv [] 1%positive [] 1%positive [] []).

(** What the component can come to: any event may be delivered at any
    time.  In particular the channel may open in a paused session: the
    monitor, with its pause button, is shown as soon as [mode] has left
    [SETUP], which a start that fails after the connection was requested
    brings about before [onopen] runs, and a second start opens a second
    channel. *)
Inductive reachable : state -> Prop :=
| reach_init t0 : reachable (init t0)
| reach_advance t s : reachable s -> reachable (advance t s)
| reach_step now e s : reachable s -> reachable (step now e s).

End Callbacks.

(** ** The promise of the connection *)

(** [sessionPromise], the promise [ai.live.connect] returns: pending, then
    fulfilled with the session or rejected. *)
Inductive promise := Pending | Fulfilled | Rejected.

(** The frames [session.sendRealtimeInput] has been called with when the
    callbacks registered on [sessionPromise] that can run have run: the
    registered frames, in the order of their registration, once the
    promise is fulfilled; none while it is pending, and none ever when it
    is rejected. *)
Definition sent (p : promise) (s : state) : list (list Q) :=
  match p with
  | Fulfilled => outbound (st_env s)
  | Pending | Rejected => []
  end.

(** ** Sequences of events *)


(** Events that neither open the channel nor toggle the pause. *)
Definition calm (e : event) : bool :=
  match e with
  | Open | TogglePause => false
  | _ => true
  end.


(** ** The detector as the code computes it *)

Section Detector.

(** The verdict of [rms > SPEECH_THRESHOLD] as the source computes it, a
    function of the frame; [is_speech] is its rendering on the rationals. *)
Variable detect : list Q -> bool.

Variable decodeAudioData : string -> option Z.

(** [processor.onaudioprocess], the verdict taken from [detect]. *)
Definition onaudioprocess_with (inputData : list Q) (now : Z) (s : state) : state :=
  if isPausedRef (st_app s) then s
  else
    let s := set_outbound (outbound (st_env s) ++ [inputData]) s in
    let s := setVolume_sq (mean_square inputData) s in
    if detect inputData then handleSpeechDetected now s else s.

Definition handle_with (e : event) (now : Z) (s : state) : state :=
  match e with
  | AudioProcess inputData => onaudioprocess_with inputData now s
  | _ => handle decodeAudioData e now s
  end.

Definition step_with (now : Z) (e : event) (s : state) : state :=
  handle_with e now (advance now s).

Definition run_with (tr : list (Z * event)) (s : state) : state :=
  fold_left (fun s te => step_with (fst te) (snd te) s) tr s.

(** A frame the detector takes for speech. *)
Definition detected (e : event) : bool :=
  match e with
  | AudioProcess inputData => detect inputData
  | _ => false
  end.

(** Events of a session during which nobody is heard and nothing is
    opened or toggled: frames the detector lets pass, inbound messages,
    sources ending, the channel closing. *)
Definition silent (e : event) : bool := calm e && negb (detected e).

(** The events of [tr] are calm and each one comes less than
    [SILENCE_TOLERANCE_MS] after the latest speech frame, [last] at first. *)
Fixpoint spaced (last : Z) (tr : list (Z * event)) : Prop :=
  match tr with
  | [] => True
  | (t, e) :: tr' =>
      calm e = true /\ last <= t < last + SILENCE_TOLERANCE_MS /\
      spaced (if detected e then t else last) tr'
  end.

(** The instant of the latest speech frame of [tr], [last] when none. *)
Definition last_speech (last : Z) (tr : list (Z * event)) : Z :=
  fold_left (fun l te => if detected (snd te) then fst te else l) tr last.

(** The mood changes to [LISTENING] when [e] is delivered at [now]. *)
Definition enters_listening (now : Z) (e : event) (s : state) : Prop :=
  babyState (st_app (advance now s)) <> LISTENING /\
  babyState (st_app (step_with now e s)) = LISTENING.

End Detector.

(** ** Gapless playback *)

(** [c] is enqueued at instant [now] of the output context, after [prev]:
    it starts when [prev] ends, unless [prev] has ended already (the
    scheduler is idle), in which case it starts at once. *)
Definition follows (prev : chunk) (now : Z) (c : chunk) : Prop :=
  if start prev + duration prev <? now
  then start c = now
  else start c = start prev + duration prev.

Fixpoint chained (prev : chunk) (arrivals : list Z) (cs : list chunk) : Prop :=
  match arrivals, cs with
  | [], [] => True
  | now :: arrivals, c :: cs => follows prev now c /\ chained c arrivals cs
  | _, _ => False
  end.

(** Inbound audio messages delivered one after the other, each with the
    [currentTime] the output context shows at its delivery. *)
Definition enqueue_all (decodeAudioData : string -> option Z)
    (msgs : list (string * Z)) (s : state) : state :=
  fold_left (fun s m => onmessage decodeAudioData (Some (fst m)) (snd m) s) msgs s.

(** The source [schedule] starts for a buffer of duration [d] that arrives
    at [currentTime]. *)
Definition scheduled_chunk (currentTime d : Z) (s : state) : chunk :=
  mkChunk (next_source (st_env s))
          (if nextStartTimeRef (st_app s) <? currentTime
           then currentTime else nextStartTimeRef (st_app s)) d.

(** The state without what [console.error] printed. *)
Definition forget_console (s : state) : state := set_console [] s.

(** ** The PCM framer *)

Module Framer.

(** An [AudioFrame]: normalised samples and the tag of their rate. *)
Record AudioFrame := mkFrame { samples : list Q; sampleRate : Z }.

Inductive FramerError := MalformedFrame.

Section Width.

(** The width of a sample on the wire, in bytes. *)
Variable nbytes : nat.

Definition bits : Z := 8 * Z.of_nat nbytes.

(** The integer that stands for the amplitude 1. *)
Definition full_scale : Z := 2 ^ (bits - 1).

(** One quantization step, as an amplitude. *)
Definition quantum : Q := 1 # Z.to_pos full_scale.

(** Conversion of a float to an integer: the fraction is dropped. *)
Definition Qtrunc (q : Q) : Z := if Qle_bool 0 q then Qfloor q else Qceiling q.

Definition clamp (lo hi z : Z) : Z := Z.max lo (Z.min hi z).

Definition quantize (x : Q) : Z :=
  clamp (- full_scale) (full_scale - 1) (Qtrunc (x * inject_Z full_scale)).

Definition dequantize (k : Z) : Q := k # Z.to_pos full_scale.

Definition byte_of_Z (z : Z) : Byte.byte :=
  match Byte.of_N (Z.to_N z) with
  | Some b => b
  | None => Byte.x00
  end.

(** The [n] low bytes of [z] in two's complement, least significant first. *)
Fixpoint le_bytes (n : nat) (z : Z) : list Byte.byte :=
  match n with
  | O => []
  | S n => byte_of_Z (z mod 256) :: le_bytes n (z / 256)
  end.

Fixpoint le_value (bs : list Byte.byte) : Z :=
  match bs with
  | [] => 0
  | b :: bs => Z.of_N (Byte.to_N b) + 256 * le_value bs
  end.

Definition signed (u : Z) : Z := if u <? full_scale then u else u - 2 * full_scale.

(** Modelled from the spec: [createPcmBlob] of services/audioUtils, which is
    not among the sources.  Section 4.1: each sample is converted from a
    normalised float to a fixed-width signed linear integer, clamped to the
    representable range, in a fixed byte order. *)
Definition encode (f : AudioFrame) : list Byte.byte :=
  flat_map (fun x => le_bytes nbytes (quantize x)) (samples f).

Fixpoint take_samples (count : nat) (bs : list Byte.byte) : list Q :=
  match count with
  | O => []
  | S count =>
      dequantize (signed (le_value (firstn nbytes bs)))
        :: take_samples count (skipn nbytes bs)
  end.

(** Modelled from the spec: the PCM decoding of services/audioUtils, which
    is not among the sources.  Section 4.1: the exact inverse of [encode]
    on well-formed input; a byte sequence whose length is not a multiple of
    the sample width fails with [MalformedFrame]. *)
Definition decode (bs : list Byte.byte) (rate : Z) : FramerError + AudioFrame :=
  if Nat.eqb (Nat.modulo (List.length bs) nbytes) 0
  then inr (mkFrame (take_samples (Nat.div (List.length bs) nbytes) bs) rate)
  else inl MalformedFrame.

End Width.

Definition normalised (f : AudioFrame) : Prop :=
  Forall (fun x => (- (1) <= x /\ x <= 1)%Q) (samples f).

End Framer.

(** ** Invariants of the session *)

(** At most one timeout is pending: the one [silenceTimerRef] designates,
    due [SILENCE_TOLERANCE_MS] after [lastSpeechTimeRef]. *)
Definition timer_inv (s : state) : Prop :=
  timers (st_env s) = [] \/
  exists id, silenceTimerRef (st_app s) = Some id /\
             timers (st_env s) =
               [(id, lastSpeechTimeRef (st_app s) + SILENCE_TOLERANCE_MS)].

(** The mood is [PAUSED] exactly in the paused sub-state, where no timeout
    is pending. *)
Definition pause_inv (s : state) : Prop :=
  isPaused (st_app s) = isPausedRef (st_app s) /\
  (babyState (st_app s) = PAUSED <-> isPausedRef (st_app s) = true) /\
  (isPausedRef (st_app s) = true -> timers (st_env s) = []).

(** The tracked sources are the sources the output context is playing. *)
Definition playback_inv (s : state) : Prop :=
  map src (playing (st_env s)) = audioSourcesRef (st_app s).

(** [setTimeout] has not yet handed out the handles from [next_timer] on. *)
Definition handed_out (id next : timer_id) : Prop := (id < next)%positive.
Arguments handed_out : simpl never.

Definition fresh_inv (s : state) : Prop :=
  forall id, silenceTimerRef (st_app s) = Some id -> handed_out id (next_timer (st_env s)).

(** The well-formed states: every reachable state that is not paused is
    one ([reachable_wf] below), and so is a paused state as the pausing
    branch of [togglePause] leaves it.  The mood itself is left free. *)
Definition wf (s : state) : Prop :=
  timer_inv s /\ pause_inv s /\ playback_inv s /\ fresh_inv s.

(** What every reachable state satisfies, paused or not ([reachable_sound]
    below): the discipline of the timeout, the two pause flags in step, the
    paused mood only in a paused session, the tracked sources. *)
Definition sound (s : state) : Prop :=
  timer_inv s /\
  isPaused (st_app s) = isPausedRef (st_app s) /\
  (babyState (st_app s) = PAUSED -> isPausedRef (st_app s) = true) /\
  playback_inv s /\ fresh_inv s.

(** ** States and decoders of the examples *)

(** A state in the middle of a session: the channel opened at 0, two
    buffers of 500 and 300 arrived at 100, the reader spoke at 150. *)
Definition sample_decoder (base64Audio : string) : option Z :=
  match base64Audio with
  | "AAAA"%string => Some 500
  | "BBBB"%string => Some 300
  | _ => None
  end.

Definition busy : state :=
  run sample_decoder
    [(0, Open); (100, Message (Some "AAAA"%string) 100);
     (100, Message (Some "BBBB"%string) 100); (150, AudioProcess [1 # 2; - (1 # 2)]%Q)]
    (init 0).

(** ** Invariants along a trace *)

(** After the timeout was set for [d] and until it has run: either it is
    pending, alone, or it has run and the mood is [CRYING]. *)
Definition armed_inv (d : Z) (s : state) : Prop :=
  (exists id, timers (st_env s) = [(id, d)]) \/
  (timers (st_env s) = [] /\ babyState (st_app s) = CRYING).

(** While the reader keeps speaking: the session is not paused, the mood is
    not [CRYING] and the timeout set at the latest speech, [last], is the one
    pending. *)
Definition speaking_inv (last : Z) (s : state) : Prop :=
  isPausedRef (st_app s) = false /\
  babyState (st_app s) <> CRYING /\
  exists id, silenceTimerRef (st_app s) = Some id /\
             timers (st_env s) = [(id, last + SILENCE_TOLERANCE_MS)].

(** The messages [msgs] carry audio that decodes to buffers of the durations
    [ds]. *)
Definition decodable (decodeAudioData : string -> option Z)
    (msgs : list (string * Z)) (ds : list Z) : Prop :=
  Forall2 (fun m d => fst m <> EmptyString /\ decodeAudioData (fst m) = Some d) msgs ds.

(** ** Further invariants and views of the session *)

(** The cleanup of the unmount effect, as far as the state shows it:
    [if (silenceTimerRef.current) clearTimeout(silenceTimerRef.current)].
    The media stream, the input context and the nodes it releases before
    are not part of the state; it touches neither the output context nor
    its sources. *)
Definition unmount (s : state) : state := clearSilenceTimer s.

(** A timeout is pending exactly while the baby listens, and nothing makes
    it happy. *)
Definition mood_inv (s : state) : Prop :=
  (timers (st_env s) <> [] <-> babyState (st_app s) = LISTENING) /\
  babyState (st_app s) <> HAPPY.

(** A paused session plays nothing and shows an empty meter. *)
Definition paused_idle (s : state) : Prop :=
  isPausedRef (st_app s) = true ->
  playing (st_env s) = [] /\ audioSourcesRef (st_app s) = [] /\
  nextStartTimeRef (st_app s) = 0 /\ volume_sq (st_app s) = 0%Q.

(** The sources of the output context have handles of their own, all
    handed out already. *)
Definition distinct_inv (s : state) : Prop :=
  NoDup (map src (playing (st_env s))) /\
  Forall (fun c => (Pos.to_nat (src c) < Pos.to_nat (next_source (st_env s)))%nat)
         (playing (st_env s)).

(** Each source ends before the later ones start. *)
Fixpoint ordered (l : list chunk) : Prop :=
  match l with
  | [] => True
  | c :: l' => Forall (fun c' => start c + duration c <= start c') l' /\ ordered l'
  end.

(** The sources play one after the other and the cursor lies at or after
    the end of each. *)
Definition ordered_inv (s : state) : Prop :=
  ordered (playing (st_env s)) /\
  Forall (fun c => start c + duration c <= nextStartTimeRef (st_app s))
         (playing (st_env s)).

(** What every reachable state satisfies ([reachable_session_inv] below). *)
Definition session_inv (s : state) : Prop :=
  sound s /\ mood_inv s /\ paused_idle s /\ distinct_inv s.

(** The decoder yields no buffer of negative duration. *)
Definition sound_decoder (decodeAudioData : string -> option Z) : Prop :=
  forall base64Audio d, decodeAudioData base64Audio = Some d -> 0 <= d.

(** A decoder for the examples: one tick per character. *)
Definition length_decoder (base64Audio : string) : option Z :=
  Some (Z.of_nat (String.length base64Audio)).

(** What the playback scheduler works on. *)
Definition playback_view (s : state) : list chunk * source_id * Z * list source_id :=
  (playing (st_env s), next_source (st_env s),
   nextStartTimeRef (st_app s), audioSourcesRef (st_app s)).

(** The frames captured along a trace, in order. *)
Definition frames_of (tr : list (Z * event)) : list (list Q) :=
  flat_map (fun te => match snd te with
                      | AudioProcess inputData => [inputData]
                      | _ => []
                      end) tr.

Definition no_toggle (tr : list (Z * event)) : bool :=
  forallb (fun te => match snd te with TogglePause => false | _ => true end) tr.

(** The events a paused session can still receive from the capture loop,
    the channel and the output context. *)
Definition background (e : event) : bool :=
  match e with
  | Message _ _ | AudioProcess _ | Ended _ => true
  | _ => false
  end.

(** The sum of the squares of a frame, from the right. *)
Fixpoint squares (inputData : list Q) : Q :=
  match inputData with
  | [] => 0%Q
  | x :: l => (x * x + squares l)%Q
  end.

(** ** components/BabyMonitor *)

Module BabyMonitor.

(** [const isCrying = state === BabyState.CRYING] and its siblings. *)
Definition isCrying (state : BabyState) : bool :=
  match state with CRYING => true | _ => false end.
Definition isHappy (state : BabyState) : bool :=
  match state with LISTENING | HAPPY => true | _ => false end.
Definition isPausedState (state : BabyState) : bool :=
  match state with PAUSED => true | _ => false end.
Definition isSleeping (state : BabyState) : bool :=
  match state with SLEEPING => true | _ => false end.

(** The first effect: the message shown for a state. *)
Definition message (state : BabyState) : string :=
  match state with
  | CRYING => "Waaaaaah! Read to me!"
  | LISTENING => "I'm listening..."
  | HAPPY => "Yay! I love this story!"
  | PAUSED => "Paused"
  | SLEEPING => "Zzz..."
  end.

(** The colour classes of the status bubble, one template hole each. *)
Inductive BubbleClass := BubbleRed | BubbleGreen | BubbleAmber | BubbleSlate.

Definition bubble_classes (state : BabyState) : list BubbleClass :=
  (if isCrying state then [BubbleRed] else [])
  ++ (if isHappy state then [BubbleGreen] else [])
  ++ (if isPausedState state then [BubbleAmber] else [])
  ++ (if isSleeping state then [BubbleSlate] else []).

(** [Math.min] *)
Definition Math_min (a b : Q) : Q := if Qle_bool a b then a else b.

(** The threshold marker: [left: Math.min(SPEECH_THRESHOLD * 1000, 100)%]. *)
Definition marker_left : Q := Math_min (SPEECH_THRESHOLD * 1000) 100.

(** The level bar: [width: Math.min(volume * 1000, 100)%]. *)
Definition level_width (volume : Q) : Q := Math_min (volume * 1000) 100.

Inductive BarClass := BarGreen | BarRed | BarSlate.

(** [volume > SPEECH_THRESHOLD ? green : isCrying ? red : slate] *)
Definition level_class (volume : Q) (state : BabyState) : BarClass :=
  if negb (Qle_bool volume SPEECH_THRESHOLD) then BarGreen
  else if isCrying state then BarRed else BarSlate.

(** The label of the pause button: "Resume Reading" or "Pause Reading",
    each after its glyph. *)
Inductive PauseLabel := ResumeReading | PauseReading.

Definition pause_label (isPaused : bool) : PauseLabel :=
  if isPaused then ResumeReading else PauseReading.

End BabyMonitor.

(** ** The pause button, seen from the component *)




(** ** services/storyService and components/StoryBook *)

Module StoryService.

(** How an [async] function ends. *)
Inductive outcome := Resolved (text : string) | Rejected (error : string).

(** Truthiness of a string that may be [undefined]. *)
Definition truthy (s : option string) : bool :=
  match s with
  | Some (String _ _) => true
  | _ => false
  end.

Definition prompt (topic : string) : string :=
  ("Write a very short (approx 100 words), engaging children's story about "
   ++ topic
   ++ ". It should be suitable for reading aloud to a baby. Format it with simple paragraphs.")%string.

Definition default_story : string := "Once upon a time...".

Definition fallback_story : string :=
  "Once upon a time, there was a developer who forgot to check their API key. But then they fixed it, and everyone lived happily ever after.".

(** [generateShortStory].  [apiKey] is [process.env.API_KEY];
    [generateContent] stands for [ai.models.generateContent] followed by
    [response.text]: [None] when the call throws, [Some None] when the
    response has no text.  The construction of the client, between the
    test of the key and the [try], is taken not to throw. *)
Definition generateShortStory (apiKey : option string)
    (generateContent : string -> option (option string))
    (topic : option string) : outcome :=
  let topic := match topic with Some t => t | None => "a cute adventure"%string end in
  if negb (truthy apiKey) then Rejected "API Key not found"
  else match generateContent (prompt topic) with
       | Some text =>
           Resolved (match text with
                     | Some (String _ _ as t) => t
                     | _ => default_story
                     end)
       | None => Resolved fallback_story
       end.

(** The state of the [StoryBook] component. *)
Record StoryBook := mkStoryBook {
  story : option string;
  loading : bool;
  topic : string
}.

(** [handleGenerate]; the notification of the parent is left out.  When
    [generateShortStory] rejects, so does [handleGenerate], after
    [setLoading(true)]. *)
Definition handleGenerate (apiKey : option string)
    (generateContent : string -> option (option string))
    (b : StoryBook) : StoryBook :=
  let b := mkStoryBook (story b) true (topic b) in
  match generateShortStory apiKey generateContent
          (Some (match topic b with
                 | EmptyString => "a magical forest"%string
                 | t => t
                 end)) with
  | Resolved newStory => mkStoryBook (Some newStory) false (topic b)
  | Rejected _ => b
  end.

End StoryService.

(** A session with three buffers queued, the second arriving after the
    first has ended. *)
Definition queued : state :=
  run length_decoder
    [(0, Open); (10, Message (Some "abc"%string) 5); (20, Message (Some "de"%string) 9);
     (30, Message (Some "fghi"%string) 9)]
    (init 0).

(** The same session, paused at 200. *)
Definition paused_busy : state := step sample_decoder 200 TogglePause busy.

(** A session that is paused at 10 and whose channel opens at 20: after a
    start that failed once the connection was requested (the monitor is
    shown in mode [ERROR]), or, as here, on the second of two channels
    (the start button was clicked twice). *)
Definition opened_while_paused : state :=
  run sample_decoder [(0, Open); (10, TogglePause); (20, Open)] (init 0).

Ltac destruct_state s :=
  let a := fresh "a" in let e := fresh "e" in
  destruct s as [a e]; destruct a, e.

Ltac unfold_setters :=
  unfold setMode, setBabyState, updBabyState, setVolume_sq, setIsConnected,
    setIsPaused, set_lastSpeechTime, set_silenceTimer, set_nextStartTime,
    set_audioSources, set_isPausedRef, set_timers, set_next_timer, set_playing,
    set_next_source, set_outbound, set_console, with_app, with_env in *.

Section Timers.

Lemma clearTimeout_sole id d s :
  timers (st_env s) = [(id, d)] -> timers (st_env (clearTimeout id s)) = [].
Proof.
  intros H. unfold clearTimeout. unfold_setters. simpl. rewrite H. simpl.
  now rewrite Pos.eqb_refl.
Qed.

Lemma clearTimeout_app id s : st_app (clearTimeout id s) = st_app s.
Proof. reflexivity. Qed.

Lemma clearSilenceTimer_app s : st_app (clearSilenceTimer s) = st_app s.
Proof. unfold clearSilenceTimer. now destruct (silenceTimerRef (st_app s)). Qed.

Lemma clearSilenceTimer_timers s :
  timer_inv s -> timers (st_env (clearSilenceTimer s)) = [].
Proof.
  intros [H | (id & Hid & H)]; unfold clearSilenceTimer.
  - destruct (silenceTimerRef (st_app s)); [|assumption].
    unfold clearTimeout. unfold_setters. simpl. now rewrite H.
  - rewrite Hid. eapply clearTimeout_sole; eauto.
Qed.

Lemma clearSilenceTimer_env s :
  st_env (clearSilenceTimer s) =
  mkEnv (timers (st_env (clearSilenceTimer s))) (next_timer (st_env s))
        (playing (st_env s)) (next_source (st_env s)) (outbound (st_env s))
        (console (st_env s)).
Proof.
  unfold clearSilenceTimer. destruct (silenceTimerRef (st_app s)); destruct_state s; reflexivity.
Qed.

(** The timeout just cleared is not pending, whatever else is. *)
Lemma clearSilenceTimer_not_pending s id :
  silenceTimerRef (st_app s) = Some id -> pending id (clearSilenceTimer s) = false.
Proof.
  intros H. unfold clearSilenceTimer, pending, clearTimeout. rewrite H.
  unfold_setters. simpl.
  induction (timers (st_env s)) as [|[i d] l IH]; simpl; [reflexivity|].
  destruct (Pos.eqb i id) eqn:E; simpl; [assumption|]. now rewrite E.
Qed.

Lemma armSilenceTimer_timers now s :
  timers (st_env (armSilenceTimer now s)) =
  timers (st_env s) ++ [(next_timer (st_env s), now + SILENCE_TOLERANCE_MS)].
Proof. reflexivity. Qed.

Lemma armSilenceTimer_ref now s :
  silenceTimerRef (st_app (armSilenceTimer now s)) = Some (next_timer (st_env s)).
Proof. reflexivity. Qed.

(** Nothing runs when no timeout is due. *)
Lemma advance_not_due t s :
  (forall p, In p (timers (st_env s)) -> t < snd p) -> advance t s = s.
Proof.
  intros H. unfold advance.
  replace (filter (due t) (timers (st_env s))) with (@nil (timer_id * Z)); [reflexivity|].
  symmetry. induction (timers (st_env s)) as [|p l IH]; simpl; [reflexivity|].
  unfold due at 1. destruct (Z.leb_spec (snd p) t).
  - specialize (H p (or_introl eq_refl)). lia.
  - apply IH. intros q Hq. apply H. now right.
Qed.

Lemma advance_no_timer t s : timers (st_env s) = [] -> advance t s = s.
Proof. intros H. apply advance_not_due. rewrite H. intros p []. Qed.

Lemma fire_no_timer id s : timers (st_env s) = [] -> fire id s = s.
Proof. intros H. unfold fire, pending. now rewrite H. Qed.

(** The sole pending timeout runs once it is due. *)
Lemma advance_sole_due t id d s :
  timers (st_env s) = [(id, d)] -> d <= t ->
  advance t s = silence_callback (set_timers [] s).
Proof.
  intros H Hd. unfold advance. rewrite H. simpl. unfold due. simpl.
  destruct (Z.leb_spec d t); [|lia]. simpl.
  unfold fire, pending. rewrite H. simpl. rewrite Pos.eqb_refl. simpl.
  unfold clearTimeout. rewrite H. simpl. now rewrite Pos.eqb_refl.
Qed.

(** Running a timeout touches the mood and the pending timeouts only. *)
Lemma fire_isPausedRef id s : isPausedRef (st_app (fire id s)) = isPausedRef (st_app s).
Proof. unfold fire. now destruct (pending id s). Qed.

Lemma advance_isPausedRef t s : isPausedRef (st_app (advance t s)) = isPausedRef (st_app s).
Proof.
  unfold advance. generalize (filter (due t) (timers (st_env s))). intros l. revert s.
  induction l as [|p l IH]; intros s; simpl; [reflexivity|].
  now rewrite IH, fire_isPausedRef.
Qed.

Lemma advance_sole_early t id d s :
  timers (st_env s) = [(id, d)] -> t < d -> advance t s = s.
Proof.
  intros H Hd. apply advance_not_due. rewrite H. intros p [<- | []]. assumption.
Qed.

End Timers.

Section Playback.

Lemma stop_all_app ids s : st_app (stop_all ids s) = st_app s.
Proof.
  unfold stop_all. revert s. induction ids as [|i ids IH]; intros s; simpl; [reflexivity|].
  now rewrite IH.
Qed.

Lemma stop_all_env ids s :
  st_env (stop_all ids s) =
  mkEnv (timers (st_env s)) (next_timer (st_env s))
        (filter (fun c => negb (existsb (Pos.eqb (src c)) ids)) (playing (st_env s)))
        (next_source (st_env s)) (outbound (st_env s)) (console (st_env s)).
Proof.
  unfold stop_all. revert s. induction ids as [|i ids IH]; intros s; simpl.
  - destruct_state s. simpl. f_equal.
    induction playing0 as [|c l IHl]; simpl; [reflexivity|]. now rewrite <- IHl.
  - rewrite IH. unfold stop_source, drop_source. unfold_setters. simpl. f_equal.
    induction (playing (st_env s)) as [|c l IHl]; simpl; [reflexivity|].
    destruct (Pos.eqb (src c) i); simpl; [assumption|].
    destruct (existsb (Pos.eqb (src c)) ids); simpl; [assumption|]. now rewrite IHl.
Qed.

(** Every tracked source is halted: none of them is left in the context. *)
Lemma stop_all_halts ids s c :
  In c (playing (st_env (stop_all ids s))) -> ~ In (src c) ids.
Proof.
  rewrite stop_all_env. simpl. rewrite filter_In. intros [_ H] Hin.
  apply negb_true_iff in H.
  assert (existsb (Pos.eqb (src c)) ids = true); [|congruence].
  apply existsb_exists. exists (src c). split; [assumption|apply Pos.eqb_refl].
Qed.

Lemma stop_all_tracked l :
  filter (fun c => negb (existsb (Pos.eqb (src c)) (map src l))) l = [].
Proof.
  assert (G : forall l', incl l l' ->
            filter (fun c => negb (existsb (Pos.eqb (src c)) (map src l'))) l = []).
  { induction l as [|c l IH]; intros l' Hl; simpl; [reflexivity|].
    assert (E : existsb (Pos.eqb (src c)) (map src l') = true).
    { apply existsb_exists. exists (src c). split; [|apply Pos.eqb_refl].
      apply in_map. apply Hl. now left. }
    rewrite E. simpl. apply IH. intros x Hx. apply Hl. now right. }
  apply G. apply incl_refl.
Qed.

Lemma drop_source_map id l :
  map src (drop_source id l) = filter (fun i => negb (Pos.eqb i id)) (map src l).
Proof.
  unfold drop_source. induction l as [|c l IH]; simpl; [reflexivity|].
  destruct (Pos.eqb (src c) id); simpl; [assumption|]. now rewrite IH.
Qed.

End Playback.

Ltac unfold_wf :=
  unfold wf, timer_inv, pause_inv, playback_inv, fresh_inv.

Ltac project :=
  cbv [st_app st_env mode babyState volume_sq isConnected isPaused
       lastSpeechTimeRef silenceTimerRef nextStartTimeRef audioSourcesRef
       isPausedRef timers next_timer playing next_source outbound console].

Ltac project_in H :=
  cbv [st_app st_env mode babyState volume_sq isConnected isPaused
       lastSpeechTimeRef silenceTimerRef nextStartTimeRef audioSourcesRef
       isPausedRef timers next_timer playing next_source outbound console] in H.

(** Splits a well-formed state into its fields, in the shapes the pending
    timeouts and their reference can have. *)
Ltac wf_cases s H :=
  destruct_state s;
  unfold wf, timer_inv, pause_inv, playback_inv, fresh_inv in H;
  cbv [st_app st_env mode babyState volume_sq isConnected isPaused
       lastSpeechTimeRef silenceTimerRef nextStartTimeRef audioSourcesRef
       isPausedRef timers next_timer playing next_source outbound console] in *;
  destruct H as [[H | (?id & ?Hid & H)] [(?Hp & ?Hm & ?Ht) [?Hs ?Hf]]]; subst;
  try match goal with x : option timer_id |- _ => destruct x end.

(** The same for a state that may be paused. *)
Ltac sound_cases s H :=
  destruct_state s;
  unfold sound, timer_inv, playback_inv, fresh_inv in H;
  cbv [st_app st_env mode babyState volume_sq isConnected isPaused
       lastSpeechTimeRef silenceTimerRef nextStartTimeRef audioSourcesRef
       isPausedRef timers next_timer playing next_source outbound console] in *;
  destruct H as [[H | (?id & ?Hid & H)] [?Hp [?Hm [?Hs ?Hf]]]]; subst;
  try match goal with x : option timer_id |- _ => destruct x end.

Ltac unfold_sound :=
  unfold sound, timer_inv, playback_inv, fresh_inv.

(** Runs a callback on a state laid out field by field. *)
Ltac crunch :=
  cbv [onopen onclose handleSpeechDetected onaudioprocess togglePause
       schedule clearSilenceTimer clearTimeout armSilenceTimer
       silence_callback pending
       setMode setBabyState updBabyState setVolume_sq setIsConnected
       setIsPaused set_lastSpeechTime set_silenceTimer set_nextStartTime
       set_audioSources set_isPausedRef set_timers set_next_timer set_playing
       set_next_source set_outbound set_console with_app with_env
       st_app st_env mode babyState volume_sq isConnected isPaused
       lastSpeechTimeRef silenceTimerRef nextStartTimeRef audioSourcesRef
       isPausedRef timers next_timer playing next_source outbound console];
  cbn [filter existsb fst snd List.app]; rewrite ?Pos.eqb_refl;
  cbn [filter existsb negb orb fst snd List.app].

(** Closes the side conditions once the state is laid out field by field. *)
Ltac finish :=
  repeat split; try discriminate; auto; try congruence;
  try (intros ? [= <-]; unfold handed_out in *; lia).

Section Invariants.

Variable decodeAudioData : string -> option Z.

Lemma wf_init t0 : wf (init t0).
Proof. unfold_wf. unfold init. project. finish. Qed.

Lemma wf_advance t s : wf s -> wf (advance t s).
Proof.
  intros H.
  assert (Hc : timers (st_env s) = [] \/
               exists id, silenceTimerRef (st_app s) = Some id /\
                 timers (st_env s) = [(id, lastSpeechTimeRef (st_app s) + SILENCE_TOLERANCE_MS)])
    by apply H.
  destruct Hc as [Hc | (id & Hid & Hc)].
  - now rewrite advance_no_timer.
  - destruct (Z_lt_le_dec t (lastSpeechTimeRef (st_app s) + SILENCE_TOLERANCE_MS)).
    + now rewrite (advance_sole_early _ _ _ _ Hc).
    + rewrite (advance_sole_due _ _ _ _ Hc) by assumption.
      destruct H as [_ [(Hp & Hm & Ht) [Hs Hf]]].
      destruct (isPausedRef (st_app s)) eqn:E.
      * rewrite Ht in Hc by reflexivity. discriminate.
      * unfold_wf. destruct_state s. crunch. project_in E. rewrite E. finish.
Qed.

Lemma wf_onopen now s :
  isPausedRef (st_app s) = false -> wf s -> wf (onopen now s).
Proof.
  intros E H. wf_cases s H; unfold_wf; crunch;
    (split; [right; eexists; split; reflexivity|]); finish.
Qed.

Lemma wf_handleSpeechDetected now s : wf s -> wf (handleSpeechDetected now s).
Proof.
  intros H. unfold handleSpeechDetected.
  destruct (isPausedRef (st_app s)) eqn:E; [assumption|].
  wf_cases s H; unfold_wf; crunch;
    (split; [right; eexists; split; reflexivity|]); finish;
    destruct babyState0; intuition congruence.
Qed.

Lemma wf_onaudioprocess inputData now s : wf s -> wf (onaudioprocess inputData now s).
Proof.
  intros H. unfold onaudioprocess.
  destruct (isPausedRef (st_app s)) eqn:E; [assumption|].
  assert (W : wf (setVolume_sq (mean_square inputData)
                    (set_outbound (outbound (st_env s) ++ [inputData]) s)))
    by (destruct_state s; exact H).
  destruct (is_speech inputData); [|exact W].
  now apply wf_handleSpeechDetected.
Qed.

Lemma wf_onclose s : wf s -> wf (onclose s).
Proof. intros H. destruct_state s. exact H. Qed.

Lemma wf_onmessage m currentTime s : wf s -> wf (onmessage decodeAudioData m currentTime s).
Proof.
  intros H. unfold onmessage.
  destruct (isPausedRef (st_app s)) eqn:E; [assumption|].
  destruct m as [[|c b]|]; try assumption.
  destruct (decodeAudioData (String c b)) as [d|].
  - destruct H as (Ht & Hp & Hs & Hf). unfold schedule.
    destruct (nextStartTimeRef (st_app s) <? currentTime); destruct_state s;
      (split; [exact Ht|split; [exact Hp|split; [|exact Hf]]]);
      unfold playback_inv in *; simpl in *; rewrite map_app; simpl; congruence.
  - destruct_state s. exact H.
Qed.

Lemma wf_onended id s : wf s -> wf (onended id s).
Proof.
  intros (Ht & Hp & Hs & Hf). destruct_state s.
  split; [exact Ht|split; [exact Hp|split; [|exact Hf]]].
  unfold playback_inv in *. simpl in *. rewrite drop_source_map. now rewrite Hs.
Qed.

Lemma wf_togglePause now s : wf s -> wf (togglePause now s).
Proof.
  intros H. unfold togglePause.
  destruct (isPaused (st_app s)) eqn:E; simpl.
  - wf_cases s H; unfold_wf; crunch;
      try (assert (F : @nil (timer_id * Z) = [(id, lastSpeechTimeRef0 + SILENCE_TOLERANCE_MS)])
             by (symmetry; auto); discriminate);
      (split; [right; eexists; split; reflexivity|]); finish.
  - assert (T : timers (st_env (clearSilenceTimer
                   (set_isPausedRef true (setIsPaused true s)))) = []).
    { apply clearSilenceTimer_timers. destruct_state s. apply H. }
    set (s1 := clearSilenceTimer _) in *.
    unfold wf, timer_inv, pause_inv, playback_inv, fresh_inv.
    unfold set_nextStartTime, set_audioSources, with_app. simpl.
    rewrite !stop_all_app, stop_all_env. simpl. rewrite T.
    subst s1. rewrite clearSilenceTimer_app. simpl.
    rewrite clearSilenceTimer_env. simpl.
    destruct H as (_ & _ & Hs & Hf). unfold playback_inv in Hs.
    repeat split; auto.
    rewrite <- Hs. now rewrite stop_all_tracked.
Qed.

(** A well-formed state is sound, and a sound state that is not paused is
    well formed. *)
Lemma wf_sound s : wf s -> sound s.
Proof.
  intros (Ht & (Hp & Hm & _) & Hs & Hf). repeat split; auto. apply Hm.
Qed.

Lemma sound_wf s : sound s -> isPausedRef (st_app s) = false -> wf s.
Proof.
  intros (Ht & Hp & Hm & Hs & Hf) E.
  split; [exact Ht|]. split; [|split; assumption].
  split; [exact Hp|]. split; [split; [exact Hm|congruence]|congruence].
Qed.

Lemma sound_advance t s : sound s -> sound (advance t s).
Proof.
  intros H.
  assert (Hc : timers (st_env s) = [] \/
               exists id, silenceTimerRef (st_app s) = Some id /\
                 timers (st_env s) = [(id, lastSpeechTimeRef (st_app s) + SILENCE_TOLERANCE_MS)])
    by apply H.
  destruct Hc as [Hc | (id & Hid & Hc)].
  - now rewrite advance_no_timer.
  - destruct (Z_lt_le_dec t (lastSpeechTimeRef (st_app s) + SILENCE_TOLERANCE_MS)).
    + now rewrite (advance_sole_early _ _ _ _ Hc).
    + rewrite (advance_sole_due _ _ _ _ Hc) by assumption.
      destruct H as (_ & Hp & _ & Hs & Hf).
      unfold_sound. destruct_state s. crunch. finish.
Qed.

(** The channel may open in a paused session: [onopen] keeps it sound. *)
Lemma sound_onopen now s : sound s -> sound (onopen now s).
Proof.
  intros H. sound_cases s H; unfold_sound; crunch;
    (split; [right; eexists; split; reflexivity|]); finish.
Qed.

Lemma sound_resume now s :
  sound s -> isPaused (st_app s) = true -> sound (togglePause now s).
Proof.
  intros H E. unfold togglePause. rewrite E.
  sound_cases s H; unfold_sound; crunch;
    (split; [right; eexists; split; reflexivity|]); finish.
Qed.

Lemma sound_onended id s : sound s -> sound (onended id s).
Proof.
  intros (Ht & Hp & Hm & Hs & Hf). destruct_state s.
  split; [exact Ht|split; [exact Hp|split; [exact Hm|split; [|exact Hf]]]].
  unfold playback_inv in *. simpl in *. rewrite drop_source_map. now rewrite Hs.
Qed.

Lemma sound_handle e now s : sound s -> sound (handle decodeAudioData e now s).
Proof.
  intros H. destruct e; cbn [handle].
  - now apply sound_onopen.
  - destruct (isPausedRef (st_app s)) eqn:E.
    + unfold onmessage. now rewrite E.
    + apply wf_sound, wf_onmessage. now apply sound_wf.
  - destruct_state s. exact H.
  - destruct (isPausedRef (st_app s)) eqn:E.
    + unfold onaudioprocess. now rewrite E.
    + apply wf_sound, wf_onaudioprocess. now apply sound_wf.
  - destruct (isPaused (st_app s)) eqn:E.
    + now apply sound_resume.
    + apply wf_sound, wf_togglePause. apply sound_wf; [exact H|].
      destruct H as (_ & Hp & _). congruence.
  - now apply sound_onended.
Qed.

Lemma sound_step now e s : sound s -> sound (step decodeAudioData now e s).
Proof. intros H. unfold step. now apply sound_handle, sound_advance. Qed.

Lemma sound_init t0 : sound (init t0).
Proof. apply wf_sound, wf_init. Qed.

Lemma reachable_sound s : reachable decodeAudioData s -> sound s.
Proof.
  induction 1; [apply sound_init|now apply sound_advance|now apply sound_step].
Qed.

(** Every reachable state that is not paused is well formed. *)
Lemma reachable_wf s :
  reachable decodeAudioData s -> isPausedRef (st_app s) = false -> wf s.
Proof. intros R E. apply sound_wf; [now apply reachable_sound|exact E]. Qed.

End Invariants.

Section Speech.



End Speech.

(** ** The mood state machine *)



Lemma busy_reachable : reachable sample_decoder busy.
Proof.
  unfold busy, run. cbn [fold_left fst snd].
  repeat (apply reach_step). apply reach_init.
Qed.

(** C4.  A pause request (the toggle, in a session that is not paused)
    yields [PAUSED] from any mood, leaves no timeout pending, halts every
    playing source, empties the set of tracked sources and resets the
    playback cursor to 0. *)
Theorem pause_requested_flushes (now : Z) (s : state) :
  wf s -> isPaused (st_app s) = false ->
  let s' := togglePause now s in
  babyState (st_app s') = PAUSED /\
  isPausedRef (st_app s') = true /\
  timers (st_env s') = [] /\
  (forall id, silenceTimerRef (st_app s) = Some id -> pending id s' = false) /\
  playing (st_env s') = [] /\
  audioSourcesRef (st_app s') = [] /\
  nextStartTimeRef (st_app s') = 0.
Proof.
  intros H E s'. subst s'. unfold togglePause. rewrite E. simpl.
  assert (T : timers (st_env (clearSilenceTimer
                 (set_isPausedRef true (setIsPaused true s)))) = []).
  { apply clearSilenceTimer_timers. destruct_state s. apply H. }
  unfold set_nextStartTime, set_audioSources, with_app, pending. simpl.
  rewrite !stop_all_app, stop_all_env. simpl. rewrite T.
  rewrite clearSilenceTimer_app, clearSilenceTimer_env. simpl.
  destruct H as (_ & _ & Hs & _). unfold playback_inv in Hs.
  repeat split; auto.
  rewrite <- Hs. apply stop_all_tracked.
Qed.

Example pause_requested_flushes_witness :
  wf busy /\ isPaused (st_app busy) = false /\
  List.length (playing (st_env busy)) = 2%nat /\
  timers (st_env busy) = [(2%positive, 2150)] /\
  babyState (st_app (togglePause 200 busy)) = PAUSED /\
  timers (st_env (togglePause 200 busy)) = [] /\
  playing (st_env (togglePause 200 busy)) = [] /\
  nextStartTimeRef (st_app (togglePause 200 busy)) = 0.
Proof.
  assert (W : wf busy)
    by (apply (reachable_wf _ _ busy_reachable); vm_compute; reflexivity).
  assert (E : isPaused (st_app busy) = false) by (vm_compute; reflexivity).
  split; [exact W|]. split; [exact E|].
  split; [vm_compute; reflexivity|]. split; [vm_compute; reflexivity|].
  destruct (pause_requested_flushes 200 busy W E) as (H1 & _ & H3 & _ & H5 & _ & H7).
  repeat split; assumption.
Defined.

(** C5, as the code has it.  The closing of the channel records that the
    connection is gone and touches nothing else: the mood stays what it
    was, [SLEEPING] only if it was, and a pending timeout stays pending. *)
Theorem session_closed_keeps_mood (s : state) :
  babyState (st_app (onclose s)) = babyState (st_app s) /\
  isConnected (st_app (onclose s)) = false /\
  onclose s = setIsConnected false s /\
  st_env (onclose s) = st_env s /\
  (forall now, babyState (st_app (step sample_decoder now Close s)) =
               babyState (st_app (advance now s))).
Proof. repeat split. Qed.

(** C5 as stated fails: closing the channel of a listening session leaves
    it listening. *)
Lemma session_closed_not_sleeping :
  babyState (st_app (step sample_decoder 100 Close (step sample_decoder 0 Open (init 0))))
    = LISTENING /\
  ~ (forall s, babyState (st_app (onclose s)) = SLEEPING).
Proof.
  split; [reflexivity|].
  intros H. specialize (H (onopen 0 (init 0))). discriminate H.
Qed.

Lemma paused_busy_reachable : reachable sample_decoder paused_busy.
Proof. exact (reach_step sample_decoder 200 TogglePause busy busy_reachable). Qed.



(** C10.  In a paused session an inbound message is dropped at once,
    whatever it carries and whatever the decoder would make of it: the
    state is the one before, with its cursor, its tracked sources and the
    sources of the output context, and everything that follows, a resume
    included, goes as if the message had never come. *)
Theorem paused_message_discarded (decodeAudioData : string -> option Z)
    (m : message) (currentTime : Z) (s : state) :
  isPausedRef (st_app s) = true ->
  onmessage decodeAudioData m currentTime s = s /\
  nextStartTimeRef (st_app (onmessage decodeAudioData m currentTime s))
    = nextStartTimeRef (st_app s) /\
  audioSourcesRef (st_app (onmessage decodeAudioData m currentTime s))
    = audioSourcesRef (st_app s) /\
  playing (st_env (onmessage decodeAudioData m currentTime s)) = playing (st_env s) /\
  (forall tr, run decodeAudioData tr (onmessage decodeAudioData m currentTime s)
              = run decodeAudioData tr s).
Proof.
  intros E. unfold onmessage. rewrite E. repeat split.
Qed.

Example paused_message_discarded_witness :
  isPausedRef (st_app paused_busy) = true /\
  onmessage sample_decoder (Some "AAAA"%string) 300 paused_busy = paused_busy /\
  playing (st_env (run sample_decoder [(400, TogglePause)]
     (onmessage sample_decoder (Some "AAAA"%string) 300 paused_busy))) = [].
Proof.
  assert (E : isPausedRef (st_app paused_busy) = true) by (vm_compute; reflexivity).
  split; [exact E|].
  destruct (paused_message_discarded sample_decoder (Some "AAAA"%string) 300
              paused_busy E) as (H1 & _ & _ & _ & H5).
  split; [exact H1|]. rewrite H5. vm_compute. reflexivity.
Defined.

(** [onopen] tests no pause flag: in a paused session it sets [LISTENING]
    and a timeout all the same. *)
Remark onopen_tests_no_pause (now : Z) (s : state) :
  babyState (st_app (onopen now s)) = LISTENING /\
  isPausedRef (st_app (onopen now s)) = isPausedRef (st_app s).
Proof.
  unfold onopen, armSilenceTimer. simpl. now rewrite !clearSilenceTimer_app.
Qed.

(** Nor does the callback of the timeout: whenever it runs the mood is
    [CRYING]. *)
Remark fire_tests_no_pause (id : timer_id) (s : state) :
  pending id s = true ->
  babyState (st_app (fire id s)) = CRYING /\
  isPausedRef (st_app (fire id s)) = isPausedRef (st_app s).
Proof. intros P. unfold fire. rewrite P. now split. Qed.

(** The callbacks next to them do test the flag, before anything else. *)
Remark paused_callbacks_return (decodeAudioData : string -> option Z)
    (now : Z) (s : state) :
  isPausedRef (st_app s) = true ->
  (forall m currentTime, onmessage decodeAudioData m currentTime s = s) /\
  (forall inputData, onaudioprocess inputData now s = s) /\
  handleSpeechDetected now s = s.
Proof.
  intros E. unfold onmessage, onaudioprocess, handleSpeechDetected. rewrite E.
  now repeat split.
Qed.

(** C2 fails in the code.  [onmessage], [onaudioprocess] and
    [handleSpeechDetected] return at once in a paused session; [onopen] and
    the callback of the timeout have no such test.  In the session paused
    at 10 whose channel opens at 20 the pause flags are set and the mood is
    [LISTENING], with a timeout pending; at 2020 the timeout runs and the
    mood is [CRYING], the session still paused.  So the paused sub-state
    does not override the mood in every reachable state. *)
Theorem pause_overridden_by_open :
  reachable sample_decoder opened_while_paused /\
  isPausedRef (st_app opened_while_paused) = true /\
  isPaused (st_app opened_while_paused) = true /\
  babyState (st_app opened_while_paused) = LISTENING /\
  timers (st_env opened_while_paused) = [(2%positive, 2020)] /\
  isPausedRef (st_app (advance 2020 opened_while_paused)) = true /\
  babyState (st_app (advance 2020 opened_while_paused)) = CRYING /\
  ~ (forall s, reachable sample_decoder s ->
       isPausedRef (st_app s) = true -> babyState (st_app s) = PAUSED).
Proof.
  assert (R : reachable sample_decoder opened_while_paused).
  { unfold opened_while_paused, run. cbn [fold_left fst snd].
    do 3 apply reach_step. apply reach_init. }
  split; [exact R|].
  repeat (split; [vm_compute; reflexivity|]).
  intros F. specialize (F _ R). vm_compute in F. specialize (F eq_refl). discriminate F.
Qed.

(** ** Silence and crying *)

Section Silence.

Variable detect : list Q -> bool.
Variable decodeAudioData : string -> option Z.

Lemma onmessage_frame m currentTime s :
  babyState (st_app (onmessage decodeAudioData m currentTime s)) = babyState (st_app s) /\
  isPausedRef (st_app (onmessage decodeAudioData m currentTime s)) = isPausedRef (st_app s) /\
  silenceTimerRef (st_app (onmessage decodeAudioData m currentTime s))
    = silenceTimerRef (st_app s) /\
  timers (st_env (onmessage decodeAudioData m currentTime s)) = timers (st_env s).
Proof.
  unfold onmessage. destruct (isPausedRef (st_app s)) eqn:E; [now rewrite E|].
  destruct m as [[|c b]|]; try now rewrite E.
  destruct (decodeAudioData (String c b)); [|cbn; now rewrite E].
  unfold schedule. destruct (nextStartTimeRef (st_app s) <? currentTime); cbn; now rewrite E.
Qed.


Lemma silent_frame e now s :
  silent detect e = true ->
  babyState (st_app (handle_with detect decodeAudioData e now s)) = babyState (st_app s) /\
  isPausedRef (st_app (handle_with detect decodeAudioData e now s)) = isPausedRef (st_app s) /\
  silenceTimerRef (st_app (handle_with detect decodeAudioData e now s))
    = silenceTimerRef (st_app s) /\
  timers (st_env (handle_with detect decodeAudioData e now s)) = timers (st_env s).
Proof.
  destruct e; simpl; try discriminate; intros Q.
  - apply onmessage_frame.
  - now repeat split.
  - unfold silent in Q. simpl in Q. apply negb_true_iff in Q.
    unfold onaudioprocess_with. rewrite Q.
    destruct (isPausedRef (st_app s)) eqn:E; cbn; rewrite ?E; now repeat split.
  - now repeat split.
Qed.

Lemma armed_inv_advance t d s : armed_inv d s -> armed_inv d (advance t s).
Proof.
  intros [[id T] | [T M]].
  - destruct (Z_lt_le_dec t d).
    + rewrite (advance_sole_early _ _ _ _ T) by assumption. left. eauto.
    + rewrite (advance_sole_due _ _ _ _ T) by assumption. right. now split.
  - rewrite advance_no_timer by assumption. right. auto.
Qed.

Lemma armed_inv_handle e now d s :
  silent detect e = true -> armed_inv d s ->
  armed_inv d (handle_with detect decodeAudioData e now s).
Proof.
  intros Q H. destruct (silent_frame e now s Q) as (Hm & _ & _ & Ht).
  unfold armed_inv. now rewrite Hm, Ht.
Qed.

Lemma armed_inv_run tr d s :
  forallb (fun te => silent detect (snd te)) tr = true ->
  armed_inv d s -> armed_inv d (run_with detect decodeAudioData tr s).
Proof.
  revert s. induction tr as [|[t e] tr IH]; intros s Q H; simpl in *; [assumption|].
  apply andb_true_iff in Q. destruct Q as [Qe Q].
  apply IH; [assumption|]. unfold step_with. apply armed_inv_handle; [assumption|].
  now apply armed_inv_advance.
Qed.

Lemma armed_inv_cries d t s :
  armed_inv d s -> d <= t -> babyState (st_app (advance t s)) = CRYING.
Proof.
  intros [[id T] | [T M]] Hd.
  - now rewrite (advance_sole_due _ _ _ _ T Hd).
  - now rewrite advance_no_timer.
Qed.

(** A frame taken for speech in a session that is not paused sets the
    timeout, whatever the mood. *)
Lemma speech_armed now inputData s :
  wf s -> isPausedRef (st_app s) = false -> detect inputData = true ->
  speaking_inv now (onaudioprocess_with detect inputData now s).
Proof.
  intros W E Sp.
  unfold onaudioprocess_with, handleSpeechDetected. rewrite E, Sp. simpl. rewrite E.
  wf_cases s W; crunch; unfold speaking_inv; simpl;
    (split; [reflexivity|split; [destruct babyState0; discriminate|eexists; split; reflexivity]]).
Qed.

(** Whatever event makes the mood [LISTENING] sets the timeout, and so does
    every frame taken for speech in a session that is not paused. *)
Lemma entering_armed now e s :
  wf s ->
  enters_listening detect decodeAudioData now e s \/
  (detected detect e = true /\ isPausedRef (st_app s) = false) ->
  armed_inv (now + SILENCE_TOLERANCE_MS) (step_with detect decodeAudioData now e s).
Proof.
  intros W C. left. unfold enters_listening, step_with in *.
  assert (P : isPausedRef (st_app (advance now s)) = isPausedRef (st_app s))
    by apply advance_isPausedRef.
  apply (wf_advance now) in W.
  set (a := advance now s) in *. clearbody a.
  destruct C as [[Hb Ha] | [D E]].
  - destruct e; cbn [handle_with handle] in *.
    + wf_cases a W; crunch; eexists; reflexivity.
    + destruct (onmessage_frame m currentTime a) as (Hm & _). congruence.
    + exfalso. exact (Hb Ha).
    + destruct (isPausedRef (st_app a)) eqn:E.
      * unfold onaudioprocess_with in Ha. rewrite E in Ha. congruence.
      * destruct (detect inputData) eqn:Sp.
        -- destruct (speech_armed now inputData a W E Sp) as (_ & _ & id & _ & T). eauto.
        -- unfold onaudioprocess_with in Ha. rewrite E, Sp in Ha. simpl in Ha. congruence.
    + unfold togglePause in *. destruct (isPaused (st_app a)) eqn:E; simpl in *.
      * wf_cases a W; try discriminate; crunch; try (eexists; reflexivity);
          assert (F : @nil (timer_id * Z) = [(id, lastSpeechTimeRef0 + SILENCE_TOLERANCE_MS)])
            by (symmetry; auto); discriminate.
      * rewrite ?stop_all_app in Ha. discriminate Ha.
    + exfalso. exact (Hb Ha).
  - destruct e; try discriminate. cbn [detected handle_with] in *. rewrite <- P in E.
    destruct (speech_armed now inputData a W E D) as (_ & _ & id & _ & T). eauto.
Qed.

Lemma speaking_inv_first now inputData s :
  wf s -> isPausedRef (st_app s) = false -> detect inputData = true ->
  speaking_inv now (step_with detect decodeAudioData now (AudioProcess inputData) s).
Proof.
  intros W E Sp. unfold step_with. apply (wf_advance now) in W.
  rewrite <- (advance_isPausedRef now) in E.
  cbn [handle_with]. now apply speech_armed.
Qed.

Lemma speaking_inv_step last t e s :
  calm e = true -> last <= t < last + SILENCE_TOLERANCE_MS ->
  speaking_inv last s ->
  speaking_inv (if detected detect e then t else last)
    (step_with detect decodeAudioData t e s).
Proof.
  intros C Ht (E & M & id & Hid & T). unfold step_with.
  rewrite (advance_sole_early _ _ _ _ T) by lia.
  destruct (detected detect e) eqn:Sp.
  - destruct e; try discriminate. simpl in *.
    unfold onaudioprocess_with, handleSpeechDetected. rewrite E, Sp. simpl. rewrite E.
    destruct_state s. simpl in *. subst. crunch. unfold speaking_inv. simpl.
    split; [reflexivity|split; [destruct babyState0; congruence|eexists; split; reflexivity]].
  - assert (Q : silent detect e = true) by (unfold silent; now rewrite C, Sp).
    destruct (silent_frame e t s Q) as (Hm & Hp & Hr & Htm).
    unfold speaking_inv. rewrite Hm, Hp, Hr, Htm. eauto.
Qed.

Lemma speaking_inv_run tr last s :
  spaced detect last tr -> speaking_inv last s ->
  speaking_inv (last_speech detect last tr) (run_with detect decodeAudioData tr s).
Proof.
  revert last s. induction tr as [|[t e] tr IH]; intros last s Sp H; simpl in *; [assumption|].
  destruct Sp as (C & Ht & Sp). unfold last_speech. simpl.
  apply (IH _ _ Sp). now apply speaking_inv_step.
Qed.

Lemma spaced_firstn n tr last : spaced detect last tr -> spaced detect last (firstn n tr).
Proof.
  revert tr last. induction n as [|n IH]; intros [|[t e] tr] last H; simpl in *; auto.
  destruct H as (C & Ht & H). auto.
Qed.

End Silence.

(** The detector on the rationals gives the callback as first written. *)
Remark onaudioprocess_with_is_speech (decodeAudioData : string -> option Z) :
  (forall inputData now s,
     onaudioprocess_with is_speech inputData now s = onaudioprocess inputData now s) /\
  (forall now e s, step_with is_speech decodeAudioData now e s = step decodeAudioData now e s).
Proof. split; [reflexivity|]. intros now e s. now destruct e. Qed.

(** C1.  Whatever verdicts the detector gives, from a well-formed state [s]:
    - when the event delivered at [now] makes the mood [LISTENING], or is a
      frame taken for speech in a session that is not paused (whatever the
      mood, [LISTENING] included), and in the events that follow nothing is
      opened or toggled and no frame is taken for speech, the mood is
      [CRYING] at every instant more than [SILENCE_TOLERANCE_MS] after
      [now];
    - when, [s] not being paused, a frame taken for speech comes at [now]
      and every later event comes less than [SILENCE_TOLERANCE_MS] after
      the latest such frame, then after each of these events the mood is
      not [CRYING], the one timeout pending is due [SILENCE_TOLERANCE_MS]
      after the latest speech, the mood is [CRYING] at no earlier instant
      and is [CRYING] from that instant on if nothing else happens. *)
Theorem silence_makes_the_baby_cry (detect : list Q -> bool)
    (decodeAudioData : string -> option Z) (now : Z) (s : state) :
  wf s ->
  (forall e tr t,
     enters_listening detect decodeAudioData now e s \/
     (detected detect e = true /\ isPausedRef (st_app s) = false) ->
     forallb (fun te => silent detect (snd te)) tr = true ->
     now + SILENCE_TOLERANCE_MS < t ->
     babyState (st_app (advance t (run_with detect decodeAudioData tr
                                     (step_with detect decodeAudioData now e s))))
       = CRYING) /\
  (forall inputData tr n,
     isPausedRef (st_app s) = false -> detect inputData = true ->
     spaced detect now tr ->
     let s' := run_with detect decodeAudioData (firstn n tr)
                 (step_with detect decodeAudioData now (AudioProcess inputData) s) in
     let last := last_speech detect now (firstn n tr) in
     babyState (st_app s') <> CRYING /\
     (exists id, silenceTimerRef (st_app s') = Some id /\
                 timers (st_env s') = [(id, last + SILENCE_TOLERANCE_MS)]) /\
     (forall t, t < last + SILENCE_TOLERANCE_MS ->
                babyState (st_app (advance t s')) <> CRYING) /\
     (forall t, last + SILENCE_TOLERANCE_MS <= t ->
                babyState (st_app (advance t s')) = CRYING)).
Proof.
  intros W. split.
  - intros e tr t Hl Q Ht.
    apply (armed_inv_cries (now + SILENCE_TOLERANCE_MS)); [|lia].
    apply armed_inv_run; [assumption|]. now apply entering_armed.
  - intros f tr n E Sp Hs s' last.
    assert (I : speaking_inv last s').
    { apply speaking_inv_run; [now apply spaced_firstn|]. now apply speaking_inv_first. }
    destruct I as (_ & M & id & Hid & T). split; [exact M|].
    split; [eauto|]. split.
    + intros t Ht. now rewrite (advance_sole_early _ _ _ _ T Ht).
    + intros t Ht. now rewrite (advance_sole_due _ _ _ _ T Ht).
Qed.

Example silence_makes_the_baby_cry_witness :
  wf busy /\
  babyState (st_app busy) = LISTENING /\
  detected is_speech (AudioProcess [1 # 2]%Q) = true /\
  isPausedRef (st_app busy) = false /\
  babyState (st_app (advance 2301
     (run_with is_speech sample_decoder [(500, AudioProcess [1 # 100; 0]%Q); (1500, Close)]
        (step_with is_speech sample_decoder 300 (AudioProcess [1 # 2]%Q) busy)))) = CRYING /\
  babyState (st_app (advance 5009
     (run_with is_speech sample_decoder
        [(1990, AudioProcess [1 # 2]%Q); (2500, AudioProcess [0]%Q);
         (3010, AudioProcess [1 # 2]%Q)]
        (step_with is_speech sample_decoder 10 (AudioProcess [1 # 2]%Q) (init 0))))) <> CRYING.
Proof.
  assert (W0 : wf (init 0)) by (unfold wf, timer_inv, pause_inv, playback_inv, fresh_inv;
    simpl; repeat split; auto; discriminate).
  assert (W : wf busy)
    by (apply (reachable_wf _ _ busy_reachable); vm_compute; reflexivity).
  split; [exact W|]. split; [vm_compute; reflexivity|].
  split; [vm_compute; reflexivity|]. split; [vm_compute; reflexivity|].
  split.
  - destruct (silence_makes_the_baby_cry is_speech sample_decoder 300 busy W) as [H1 _].
    apply H1; try reflexivity. right. split; vm_compute; reflexivity.
  - destruct (silence_makes_the_baby_cry is_speech sample_decoder 10 (init 0) W0) as [_ H2].
    assert (Hs : spaced is_speech 10
                   [(1990, AudioProcess [1 # 2]%Q); (2500, AudioProcess [0]%Q);
                    (3010, AudioProcess [1 # 2]%Q)])
      by (simpl; repeat split; discriminate).
    destruct (H2 [1 # 2]%Q _ 3%nat eq_refl eq_refl Hs) as (_ & _ & H & _).
    apply H. vm_compute. reflexivity.
Defined.

(** ** The playback scheduler *)

Section Scheduler.

Variable decodeAudioData : string -> option Z.

Lemma onmessage_schedules base64Audio currentTime d s :
  isPausedRef (st_app s) = false -> base64Audio <> EmptyString ->
  decodeAudioData base64Audio = Some d ->
  onmessage decodeAudioData (Some base64Audio) currentTime s = schedule currentTime d s.
Proof.
  intros E Hn Hd. unfold onmessage. rewrite E.
  destruct base64Audio; [congruence|]. now rewrite Hd.
Qed.

Lemma schedule_spec currentTime d s :
  playing (st_env (schedule currentTime d s))
    = playing (st_env s) ++ [scheduled_chunk currentTime d s] /\
  nextStartTimeRef (st_app (schedule currentTime d s))
    = start (scheduled_chunk currentTime d s) + d /\
  audioSourcesRef (st_app (schedule currentTime d s))
    = audioSourcesRef (st_app s) ++ [next_source (st_env s)] /\
  isPausedRef (st_app (schedule currentTime d s)) = isPausedRef (st_app s).
Proof.
  unfold schedule, scheduled_chunk.
  destruct (nextStartTimeRef (st_app s) <? currentTime); cbn; auto.
Qed.

Lemma enqueue_all_cons base64Audio currentTime msgs s :
  enqueue_all decodeAudioData ((base64Audio, currentTime) :: msgs) s
  = enqueue_all decodeAudioData msgs
      (onmessage decodeAudioData (Some base64Audio) currentTime s).
Proof. reflexivity. Qed.

Lemma enqueue_chain msgs ds :
  decodable decodeAudioData msgs ds ->
  forall s prev,
    isPausedRef (st_app s) = false ->
    nextStartTimeRef (st_app s) = start prev + duration prev ->
    exists cs,
      playing (st_env (enqueue_all decodeAudioData msgs s)) = playing (st_env s) ++ cs /\
      chained prev (map snd msgs) cs /\ map duration cs = ds.
Proof.
  induction 1 as [|[b now] d msgs ds [Hn Hd] _ IH]; intros s prev E Hc.
  - exists []. cbn. now rewrite app_nil_r.
  - cbn [fst] in Hn, Hd. rewrite enqueue_all_cons.
    rewrite (onmessage_schedules b now d s E Hn Hd).
    destruct (schedule_spec now d s) as (Hp & Hcur & _ & Hpa).
    set (c := scheduled_chunk now d s) in *.
    destruct (IH (schedule now d s) c) as (cs & Hcs & Hch & Hds).
    + congruence.
    + exact Hcur.
    + exists (c :: cs). rewrite Hcs, Hp, <- app_assoc.
      split; [reflexivity|]. split; [|cbn; now rewrite Hds].
      cbn [map snd chained]. split; [|exact Hch].
      unfold follows. subst c. unfold scheduled_chunk. cbn [start]. rewrite <- Hc.
      now destruct (nextStartTimeRef (st_app s) <? now).
Qed.

End Scheduler.

(** C6.  Buffers enqueued one after the other in a session that is not
    paused: the first one starts at the cursor, or at once when the cursor
    lies in the past (the scheduler is idle, as it is after a flush); each
    later one starts exactly when its predecessor ends, or at once when the
    predecessor has ended before it arrives.  Two buffers that arrive at the
    same instant, the first of a duration [d] that is not negative, start
    exactly [d] apart. *)
Theorem playback_is_gapless (decodeAudioData : string -> option Z)
    (m : string * Z) (ms : list (string * Z)) (d : Z) (ds : list Z) (s : state) :
  isPausedRef (st_app s) = false ->
  decodable decodeAudioData (m :: ms) (d :: ds) ->
  exists c cs,
    playing (st_env (enqueue_all decodeAudioData (m :: ms) s))
      = playing (st_env s) ++ c :: cs /\
    start c = (if nextStartTimeRef (st_app s) <? snd m
               then snd m else nextStartTimeRef (st_app s)) /\
    (nextStartTimeRef (st_app s) = 0 -> 0 <= snd m -> start c = snd m) /\
    chained c (map snd ms) cs /\
    map duration (c :: cs) = d :: ds /\
    (forall m2, ms = [m2] -> snd m2 = snd m -> 0 <= d ->
       exists c2, cs = [c2] /\ start c2 = start c + d).
Proof.
  intros E Hd. inversion Hd as [|m' d' ms' ds' [Hn Hm] Hrest]; subst.
  destruct m as [b now]. cbn [fst snd] in *.
  rewrite enqueue_all_cons.
  rewrite (onmessage_schedules decodeAudioData b now d s E Hn Hm).
  destruct (schedule_spec now d s) as (Hp & Hcur & _ & Hpa).
  set (c := scheduled_chunk now d s) in *.
  assert (Hst : start c = if nextStartTimeRef (st_app s) <? now
                          then now else nextStartTimeRef (st_app s)) by reflexivity.
  assert (Hdu : duration c = d) by reflexivity.
  clearbody c.
  destruct (enqueue_chain decodeAudioData ms ds Hrest (schedule now d s) c)
    as (cs & Hcs & Hch & Hds); [congruence|rewrite Hdu; exact Hcur|].
  exists c, cs. rewrite Hcs, Hp, <- app_assoc.
  split; [reflexivity|]. split; [exact Hst|].
  split; [|split; [exact Hch|split]].
  - intros H0 Hnow. rewrite Hst, H0. destruct (Z.ltb_spec 0 now); lia.
  - cbn [map]. now rewrite Hds, Hdu.
  - intros m2 -> Hsame Hpos. cbn [map chained] in Hch.
    destruct cs as [|c2 [|c3 cs]].
    + cbn in Hch. contradiction.
    + exists c2. split; [reflexivity|]. destruct Hch as [Hf _].
      unfold follows in Hf. rewrite Hsame, Hdu in Hf.
      destruct (Z.ltb_spec (nextStartTimeRef (st_app s)) now);
        destruct (Z.ltb_spec (start c + d) now); lia.
    + cbn in Hch. destruct Hch as [_ []].
Qed.

Example playback_is_gapless_witness :
  isPausedRef (st_app (onopen 0 (init 0))) = false /\
  decodable sample_decoder [("AAAA"%string, 100); ("BBBB"%string, 100)] [500; 300] /\
  playing (st_env (enqueue_all sample_decoder
                     [("AAAA"%string, 100); ("BBBB"%string, 100)] (onopen 0 (init 0))))
    = [mkChunk 1%positive 100 500; mkChunk 2%positive 600 300] /\
  exists c c2,
    playing (st_env (enqueue_all sample_decoder
                       [("AAAA"%string, 100); ("BBBB"%string, 100)] (onopen 0 (init 0))))
      = [c; c2] /\ start c2 = start c + 500.
Proof.
  assert (D : decodable sample_decoder [("AAAA"%string, 100); ("BBBB"%string, 100)] [500; 300])
    by (repeat constructor; discriminate).
  assert (E : isPausedRef (st_app (onopen 0 (init 0))) = false) by (vm_compute; reflexivity).
  split; [exact E|]. split; [exact D|]. split; [vm_compute; reflexivity|].
  destruct (playback_is_gapless sample_decoder ("AAAA"%string, 100) [("BBBB"%string, 100)]
              500 [300] (onopen 0 (init 0)) E D)
    as (c & cs & Hp & _ & _ & _ & _ & H2).
  destruct (H2 _ eq_refl eq_refl) as (c2 & -> & Hs); [discriminate|].
  exists c, c2. split; [exact Hp | exact Hs].
Defined.

(** ** Decoding errors *)

Section Console.

Variable decodeAudioData : string -> option Z.

(** Nothing but [console.error] reads or writes the console: a callback
    does the same on two states that differ by it alone. *)
Lemma set_console_forget c s : forget_console (set_console c s) = forget_console s.
Proof. reflexivity. Qed.

Lemma forget_console_eq s1 s2 :
  forget_console s1 = forget_console s2 -> s1 = set_console (console (st_env s1)) s2.
Proof.
  destruct_state s1. destruct_state s2. unfold forget_console. unfold_setters. simpl.
  intros [=]. subst. reflexivity.
Qed.

Lemma fire_console c id s : fire id (set_console c s) = set_console c (fire id s).
Proof. unfold fire, pending. simpl. now destruct (existsb _ _). Qed.

Lemma advance_console c t s : advance t (set_console c s) = set_console c (advance t s).
Proof.
  unfold advance. simpl. generalize (filter (due t) (timers (st_env s))). intros l.
  revert s. induction l as [|p l IH]; intros s; simpl; [reflexivity|].
  now rewrite fire_console, IH.
Qed.

Lemma stop_all_console c ids s : stop_all ids (set_console c s) = set_console c (stop_all ids s).
Proof.
  unfold stop_all. revert s. induction ids as [|i ids IH]; intros s; simpl; [reflexivity|].
  now rewrite <- IH.
Qed.

Lemma clearSilenceTimer_console c s :
  clearSilenceTimer (set_console c s) = set_console c (clearSilenceTimer s).
Proof. unfold clearSilenceTimer. simpl. now destruct (silenceTimerRef (st_app s)). Qed.

Lemma onopen_console c now s : onopen now (set_console c s) = set_console c (onopen now s).
Proof. destruct_state s. destruct silenceTimerRef0; crunch; reflexivity. Qed.

Lemma handleSpeechDetected_console c now s :
  handleSpeechDetected now (set_console c s) = set_console c (handleSpeechDetected now s).
Proof.
  destruct_state s. destruct silenceTimerRef0, isPausedRef0; crunch; reflexivity.
Qed.

Lemma onaudioprocess_console c inputData now s :
  onaudioprocess inputData now (set_console c s)
  = set_console c (onaudioprocess inputData now s).
Proof.
  unfold onaudioprocess. cbn [set_console with_env st_app].
  destruct (isPausedRef (st_app s)); [reflexivity|].
  destruct (is_speech inputData); [|reflexivity].
  now rewrite <- handleSpeechDetected_console.
Qed.

Lemma togglePause_console c now s :
  togglePause now (set_console c s) = set_console c (togglePause now s).
Proof.
  unfold togglePause. cbn [set_console with_env st_app].
  destruct (isPaused (st_app s)); cbn [negb].
  - destruct_state s. destruct silenceTimerRef0; crunch; reflexivity.
  - change (set_isPausedRef true (setIsPaused true (set_console c s)))
      with (set_console c (set_isPausedRef true (setIsPaused true s))).
    rewrite clearSilenceTimer_console.
    set (s1 := clearSilenceTimer _).
    change (setVolume_sq 0%Q (setBabyState PAUSED (set_console c s1)))
      with (set_console c (setVolume_sq 0%Q (setBabyState PAUSED s1))).
    set (s2 := setVolume_sq 0%Q (setBabyState PAUSED s1)).
    cbn [set_console with_env st_app]. now rewrite stop_all_console.
Qed.

Lemma handle_console c e now s :
  forget_console (handle decodeAudioData e now (set_console c s))
  = forget_console (handle decodeAudioData e now s).
Proof.
  destruct e; cbn [handle].
  - rewrite onopen_console. apply set_console_forget.
  - unfold onmessage. cbn [set_console with_env st_app].
    destruct (isPausedRef (st_app s)); [reflexivity|].
    destruct m as [[|a b]|]; try reflexivity.
    destruct (decodeAudioData (String a b)); [|reflexivity].
    unfold schedule. cbn [set_console with_env st_app].
    now destruct (nextStartTimeRef (st_app s) <? currentTime).
  - reflexivity.
  - rewrite onaudioprocess_console. apply set_console_forget.
  - rewrite togglePause_console. apply set_console_forget.
  - reflexivity.
Qed.

Lemma step_console now e s1 s2 :
  forget_console s1 = forget_console s2 ->
  forget_console (step decodeAudioData now e s1) = forget_console (step decodeAudioData now e s2).
Proof.
  intros H. rewrite (forget_console_eq _ _ H). unfold step.
  now rewrite advance_console, handle_console.
Qed.

Lemma run_console tr s1 s2 :
  forget_console s1 = forget_console s2 ->
  forget_console (run decodeAudioData tr s1) = forget_console (run decodeAudioData tr s2).
Proof.
  revert s1 s2. induction tr as [|[t e] tr IH]; intros s1 s2 H; simpl; [assumption|].
  apply IH. now apply step_console.
Qed.

End Console.

(** C8.  A message whose audio does not decode, received in a session that
    is not paused: the error is reported on the console and nothing else
    changes, neither the cursor nor the tracked and playing sources nor the
    mood nor the connection; whatever comes next, later buffers included,
    is handled as if the message had not come, up to the console. *)
Theorem decode_error_drops_chunk (decodeAudioData : string -> option Z)
    (base64Audio : string) (currentTime : Z) (s : state) :
  isPausedRef (st_app s) = false ->
  base64Audio <> EmptyString ->
  decodeAudioData base64Audio = None ->
  let s' := onmessage decodeAudioData (Some base64Audio) currentTime s in
  console (st_env s') = console (st_env s) ++ ["Audio decode error"%string] /\
  forget_console s' = forget_console s /\
  nextStartTimeRef (st_app s') = nextStartTimeRef (st_app s) /\
  audioSourcesRef (st_app s') = audioSourcesRef (st_app s) /\
  playing (st_env s') = playing (st_env s) /\
  babyState (st_app s') = babyState (st_app s) /\
  isConnected (st_app s') = isConnected (st_app s) /\
  (forall tr, forget_console (run decodeAudioData tr s')
              = forget_console (run decodeAudioData tr s)) /\
  (forall m2 currentTime2,
     playing (st_env (onmessage decodeAudioData m2 currentTime2 s'))
       = playing (st_env (onmessage decodeAudioData m2 currentTime2 s)) /\
     nextStartTimeRef (st_app (onmessage decodeAudioData m2 currentTime2 s'))
       = nextStartTimeRef (st_app (onmessage decodeAudioData m2 currentTime2 s))).
Proof.
  intros E Hn Hd s'.
  assert (S' : s' = set_console (console (st_env s) ++ ["Audio decode error"%string]) s).
  { subst s'. unfold onmessage. rewrite E. destruct base64Audio; [congruence|]. now rewrite Hd. }
  rewrite S'. repeat split.
  - intros tr. now apply run_console.
  - pose proof (handle_console decodeAudioData
                  (console (st_env s) ++ ["Audio decode error"%string])
                  (Message m2 currentTime2) 0 s) as H. simpl in H.
    now apply (f_equal (fun x => playing (st_env x))) in H.
  - pose proof (handle_console decodeAudioData
                  (console (st_env s) ++ ["Audio decode error"%string])
                  (Message m2 currentTime2) 0 s) as H. simpl in H.
    now apply (f_equal (fun x => nextStartTimeRef (st_app x))) in H.
Qed.

Example decode_error_drops_chunk_witness :
  isPausedRef (st_app busy) = false /\
  sample_decoder "????"%string = None /\
  nextStartTimeRef (st_app busy) = 900 /\
  nextStartTimeRef (st_app (onmessage sample_decoder (Some "????"%string) 300 busy)) = 900 /\
  playing (st_env (onmessage sample_decoder (Some "BBBB"%string) 400
                     (onmessage sample_decoder (Some "????"%string) 300 busy)))
    = [mkChunk 1%positive 100 500; mkChunk 2%positive 600 300; mkChunk 3%positive 900 300].
Proof.
  assert (E : isPausedRef (st_app busy) = false) by (vm_compute; reflexivity).
  assert (C : nextStartTimeRef (st_app busy) = 900) by (vm_compute; reflexivity).
  split; [exact E|]. split; [reflexivity|]. split; [exact C|].
  destruct (decode_error_drops_chunk sample_decoder "????"%string 300 busy E)
    as (_ & _ & H3 & _ & _ & _ & _ & _ & H9); [discriminate|reflexivity|].
  split; [rewrite H3; exact C|].
  rewrite (proj1 (H9 (Some "BBBB"%string) 400)). vm_compute. reflexivity.
Defined.

(** ** The round trip of the framer *)

Section FramerRoundTrip.

Import Framer.

Variable nbytes : nat.
Hypothesis nbytes_pos : (0 < nbytes)%nat.

Let F := full_scale nbytes.

Lemma full_scale_pos : 0 < F.
Proof. unfold F, full_scale, bits. apply Z.pow_pos_nonneg; lia. Qed.

Lemma two_full_scale : 2 * F = 256 ^ Z.of_nat nbytes.
Proof.
  unfold F, full_scale, bits.
  replace 256 with (2 ^ 8) by reflexivity. rewrite <- Z.pow_mul_r by lia.
  replace (8 * Z.of_nat nbytes) with (Z.succ (8 * Z.of_nat nbytes - 1)) at 2 by lia.
  rewrite Z.pow_succ_r by lia. reflexivity.
Qed.

Lemma byte_of_Z_value z : 0 <= z < 256 -> Z.of_N (Byte.to_N (byte_of_Z z)) = z.
Proof.
  intros Hz. unfold byte_of_Z. destruct (Byte.of_N (Z.to_N z)) as [b|] eqn:E.
  - apply Byte.to_of_N in E. rewrite E. lia.
  - apply Byte.of_N_None_iff in E. lia.
Qed.

Lemma le_bytes_length n z : List.length (le_bytes n z) = n.
Proof. revert z. induction n as [|n IH]; intros z; simpl; auto. Qed.

Lemma le_value_le_bytes n z : le_value (le_bytes n z) = z mod 256 ^ Z.of_nat n.
Proof.
  revert z. induction n as [|n IH]; intros z.
  - simpl. now rewrite Z.mod_1_r.
  - cbn [le_bytes le_value]. rewrite IH, byte_of_Z_value by (apply Z.mod_pos_bound; lia).
    rewrite Nat2Z.inj_succ, Z.pow_succ_r by lia.
    rewrite Z.rem_mul_r by lia. reflexivity.
Qed.

Lemma signed_wrap k : - F <= k < F -> signed nbytes (k mod 256 ^ Z.of_nat nbytes) = k.
Proof.
  intros Hk. rewrite <- two_full_scale. unfold signed. fold F.
  pose proof full_scale_pos.
  destruct (Z_lt_le_dec k 0).
  - replace (k mod (2 * F)) with (k + 2 * F).
    + destruct (Z.ltb_spec (k + 2 * F) F); lia.
    + apply Z.mod_unique with (q := -1); lia.
  - rewrite Z.mod_small by lia. destruct (Z.ltb_spec k F); lia.
Qed.

Lemma quantize_range x : - F <= quantize nbytes x < F.
Proof.
  pose proof full_scale_pos. unfold quantize, clamp. fold F. lia.
Qed.

Lemma Qtrunc_close q : (inject_Z (Qtrunc q) - 1 < q /\ q < inject_Z (Qtrunc q) + 1)%Q.
Proof.
  unfold Qtrunc. destruct (Qle_bool 0 q) eqn:E.
  - pose proof (Qfloor_le q) as H1. pose proof (Qlt_floor q) as H2.
    rewrite inject_Z_plus in H2. change (inject_Z 1) with 1%Q in H2. split; lra.
  - pose proof (Qle_ceiling q) as H1. pose proof (Qceiling_lt q) as H2.
    unfold Z.sub in H2. rewrite inject_Z_plus in H2.
    change (inject_Z (- (1))) with (- (1))%Q in H2. split; lra.
Qed.

Lemma Qtrunc_le_bound q (b : Z) : (q <= inject_Z b)%Q -> Qtrunc q <= b.
Proof.
  intros H. destruct (Qtrunc_close q) as [H1 _].
  assert (L : (inject_Z (Qtrunc q) < inject_Z (b + 1))%Q).
  { rewrite inject_Z_plus. change (inject_Z 1) with 1%Q. lra. }
  rewrite <- Zlt_Qlt in L. lia.
Qed.

Lemma Qtrunc_ge_bound q (b : Z) : (inject_Z b <= q)%Q -> b <= Qtrunc q.
Proof.
  intros H. destruct (Qtrunc_close q) as [_ H2].
  assert (L : (inject_Z b < inject_Z (Qtrunc q + 1))%Q).
  { rewrite inject_Z_plus. change (inject_Z 1) with 1%Q. lra. }
  rewrite <- Zlt_Qlt in L. lia.
Qed.

(** One sample: the integer on the wire stands for an amplitude within one
    step of the sample. *)
Lemma quantize_close x :
  (- (1) <= x)%Q -> (x <= 1)%Q ->
  (Qabs (dequantize nbytes (quantize nbytes x) - x) <= quantum nbytes)%Q.
Proof.
  intros Hlo Hhi. pose proof full_scale_pos as HF.
  set (Fq := inject_Z F).
  assert (HFq : (0 < Fq)%Q).
  { unfold Fq. change 0%Q with (inject_Z 0). rewrite <- Zlt_Qlt. exact HF. }
  set (y := (x * Fq)%Q).
  assert (Hy1 : (y <= Fq)%Q).
  { unfold y. setoid_replace Fq with (1 * Fq)%Q at 2 by ring.
    apply Qmult_le_compat_r; [assumption|now apply Qlt_le_weak]. }
  assert (Hy2 : (- Fq <= y)%Q).
  { unfold y. setoid_replace (- Fq)%Q with (- (1) * Fq)%Q by ring.
    apply Qmult_le_compat_r; [assumption|now apply Qlt_le_weak]. }
  destruct (Qtrunc_close y) as [Ht1 Ht2].
  assert (Tb1 : Qtrunc y <= F) by (apply Qtrunc_le_bound; exact Hy1).
  assert (Tb2 : - F <= Qtrunc y).
  { apply Qtrunc_ge_bound. rewrite inject_Z_opp. exact Hy2. }
  set (k := quantize nbytes x).
  assert (Hk : (inject_Z k - 1 <= y /\ y <= inject_Z k + 1)%Q).
  { unfold k, quantize, clamp. fold F. fold Fq. fold y.
    destruct (Z.eq_dec (Qtrunc y) F) as [E | NE].
    - rewrite E in *. replace (Z.max (- F) (Z.min (F - 1) F)) with (F + - (1)) by lia.
      rewrite inject_Z_plus. change (inject_Z (- (1))) with (- (1))%Q. fold Fq.
      fold Fq in Ht1. split; lra.
    - replace (Z.max (- F) (Z.min (F - 1) (Qtrunc y))) with (Qtrunc y) by lia.
      split; lra. }
  clearbody k. destruct Hk as [Hk1 Hk2].
  apply Qabs_Qle_condition.
  unfold dequantize, quantum. fold F.
  rewrite (Qmake_Qdiv k), (Qmake_Qdiv 1). rewrite Z2Pos.id by exact HF. fold Fq.
  assert (Hx : (x == y / Fq)%Q).
  { unfold y. field. intros E. rewrite E in HFq. now apply Qlt_irrefl in HFq. }
  rewrite Hx.
  assert (Hr : (0 < / Fq)%Q) by now apply Qinv_lt_0_compat.
  unfold Qdiv. set (r := (/ Fq)%Q) in *. clearbody r.
  change (inject_Z 1) with 1%Q.
  split.
  - setoid_replace (- (1 * r))%Q with ((- (1)) * r)%Q by ring.
    setoid_replace (inject_Z k * r - y * r)%Q with ((inject_Z k - y) * r)%Q by ring.
    apply Qmult_le_compat_r; [lra|now apply Qlt_le_weak].
  - setoid_replace (inject_Z k * r - y * r)%Q with ((inject_Z k - y) * r)%Q by ring.
    apply Qmult_le_compat_r; [lra|now apply Qlt_le_weak].
Qed.

Lemma firstn_exact {A} n (l r : list A) : List.length l = n -> firstn n (l ++ r) = l.
Proof.
  intros <-. induction l as [|a l IH]; simpl; [now destruct r|now rewrite IH].
Qed.

Lemma skipn_exact {A} n (l r : list A) : List.length l = n -> skipn n (l ++ r) = r.
Proof. intros <-. induction l as [|a l IH]; simpl; auto. Qed.

Lemma encode_length xs :
  List.length (flat_map (fun x => le_bytes nbytes (quantize nbytes x)) xs)
  = (List.length xs * nbytes)%nat.
Proof.
  induction xs as [|x xs IH]; simpl; [reflexivity|].
  now rewrite length_app, le_bytes_length, IH.
Qed.

Lemma take_samples_encode xs :
  take_samples nbytes (List.length xs)
    (flat_map (fun x => le_bytes nbytes (quantize nbytes x)) xs)
  = map (fun x => dequantize nbytes (quantize nbytes x)) xs.
Proof.
  induction xs as [|x xs IH]; [reflexivity|].
  cbn [List.length flat_map take_samples map].
  set (bs := le_bytes nbytes (quantize nbytes x)).
  assert (L : List.length bs = nbytes) by apply le_bytes_length.
  rewrite (firstn_exact nbytes bs _ L), (skipn_exact nbytes bs _ L), IH. f_equal.
  unfold bs. rewrite le_value_le_bytes, signed_wrap; [reflexivity|apply quantize_range].
Qed.

Lemma decode_encode f :
  decode nbytes (encode nbytes f) (sampleRate f)
  = inr (mkFrame (map (fun x => dequantize nbytes (quantize nbytes x)) (samples f))
                 (sampleRate f)).
Proof.
  unfold decode, encode. rewrite encode_length.
  rewrite Nat.Div0.mod_mul. simpl. rewrite Nat.div_mul by lia.
  now rewrite take_samples_encode.
Qed.

End FramerRoundTrip.

(** C9.  For a sample width of at least one byte and a frame whose samples
    lie in [-1, 1]: decoding the encoded frame succeeds, keeps the rate and
    the number of samples, and every decoded sample is within one
    quantization step of the sample it comes from. *)
Theorem framer_round_trip (nbytes : nat) (f : Framer.AudioFrame) :
  (0 < nbytes)%nat -> Framer.normalised f ->
  exists g,
    Framer.decode nbytes (Framer.encode nbytes f) (Framer.sampleRate f) = inr g /\
    Framer.sampleRate g = Framer.sampleRate f /\
    Forall2 (fun x y => (Qabs (y - x) <= Framer.quantum nbytes)%Q)
            (Framer.samples f) (Framer.samples g).
Proof.
  intros Hn Hf. eexists. split; [apply decode_encode; exact Hn|].
  split; [reflexivity|]. simpl.
  unfold Framer.normalised in Hf.
  induction Hf as [|x xs [Hlo Hhi] _ IH]; simpl; constructor; [|exact IH].
  now apply quantize_close.
Qed.

Example framer_round_trip_witness :
  (0 < 2)%nat /\
  Framer.normalised (Framer.mkFrame [1; - (1); 1 # 3; 0]%Q 16000) /\
  Framer.encode 2 (Framer.mkFrame [1; - (1); 1 # 3; 0]%Q 16000)
    = [Byte.xff; Byte.x7f; Byte.x00; Byte.x80; Byte.xaa; Byte.x2a; Byte.x00; Byte.x00] /\
  exists g,
    Framer.decode 2 (Framer.encode 2 (Framer.mkFrame [1; - (1); 1 # 3; 0]%Q 16000)) 16000
      = inr g /\
    Forall2 (fun x y => (Qabs (y - x) <= 1 # 32768)%Q) [1; - (1); 1 # 3; 0]%Q
            (Framer.samples g).
Proof.
  assert (N : Framer.normalised (Framer.mkFrame [1; - (1); 1 # 3; 0]%Q 16000))
    by (repeat constructor; discriminate).
  split; [lia|]. split; [exact N|]. split; [reflexivity|].
  destruct (framer_round_trip 2 _ (Nat.lt_0_succ 1) N) as (g & Hd & _ & Hs).
  exists g. split; [exact Hd | exact Hs].
Defined.

(** * Beyond the claims: what else the session keeps *)

Section Moods.

Variable decodeAudioData : string -> option Z.

Lemma fire_shape id s :
  exists b tm, fire id s = set_timers tm (setBabyState b s) /\
               (b = babyState (st_app s) \/ b = CRYING).
Proof.
  unfold fire. destruct (pending id s).
  - exists CRYING, (filter (fun p => negb (Pos.eqb (fst p) id)) (timers (st_env s))).
    split; [destruct_state s; reflexivity|now right].
  - exists (babyState (st_app s)), (timers (st_env s)).
    split; [destruct_state s; reflexivity|now left].
Qed.

Lemma advance_shape t s :
  exists b tm, advance t s = set_timers tm (setBabyState b s) /\
               (b = babyState (st_app s) \/ b = CRYING).
Proof.
  unfold advance. generalize (filter (due t) (timers (st_env s))). intros l.
  revert s. induction l as [|p l IH]; intros s; cbn [fold_left].
  - exists (babyState (st_app s)), (timers (st_env s)).
    split; [destruct_state s; reflexivity|now left].
  - destruct (fire_shape (fst p) s) as (b1 & tm1 & -> & Hb1).
    destruct (IH (set_timers tm1 (setBabyState b1 s))) as (b2 & tm2 & -> & Hb2).
    exists b2, tm2. split; [destruct_state s; reflexivity|].
    destruct Hb2 as [-> | ->]; [exact Hb1|now right].
Qed.

(** No callback sets a mood other than [LISTENING] and [PAUSED]. *)
Lemma handle_mood e now s :
  babyState (st_app (handle decodeAudioData e now s)) = babyState (st_app s) \/
  babyState (st_app (handle decodeAudioData e now s)) = LISTENING \/
  babyState (st_app (handle decodeAudioData e now s)) = PAUSED.
Proof.
  destruct e; cbn [handle].
  - right; left. unfold onopen, armSilenceTimer. cbn. now rewrite clearSilenceTimer_app.
  - left. apply onmessage_frame.
  - now left.
  - unfold onaudioprocess. destruct (isPausedRef (st_app s)) eqn:E; [now left|].
    destruct (is_speech inputData); [|now left].
    unfold handleSpeechDetected. cbn [st_app setVolume_sq set_outbound with_app with_env isPausedRef].
    rewrite E. unfold armSilenceTimer. cbn. rewrite clearSilenceTimer_app. cbn.
    destruct (babyState (st_app s)); auto.
  - unfold togglePause. destruct (isPaused (st_app s)); cbn [negb].
    + right; left. unfold armSilenceTimer. cbn. now rewrite clearSilenceTimer_app.
    + right; right. unfold set_nextStartTime, set_audioSources, with_app.
      cbn [st_app babyState]. now rewrite stop_all_app.
  - now left.
Qed.

Lemma step_mood now e s :
  babyState (st_app (step decodeAudioData now e s)) = babyState (st_app s) \/
  babyState (st_app (step decodeAudioData now e s)) = LISTENING \/
  babyState (st_app (step decodeAudioData now e s)) = PAUSED \/
  babyState (st_app (step decodeAudioData now e s)) = CRYING.
Proof.
  unfold step. destruct (advance_shape now s) as (b & tm & Ha & Hb).
  destruct (handle_mood e now (advance now s)) as [H | [H | H]]; rewrite H; auto.
  rewrite Ha. cbn. destruct Hb as [-> | ->]; auto.
Qed.

Lemma run_mood tr s :
  babyState (st_app (run decodeAudioData tr s)) = babyState (st_app s) \/
  babyState (st_app (run decodeAudioData tr s)) = LISTENING \/
  babyState (st_app (run decodeAudioData tr s)) = PAUSED \/
  babyState (st_app (run decodeAudioData tr s)) = CRYING.
Proof.
  revert s. induction tr as [|[t e] tr IH]; intros s; cbn [run fold_left fst snd]; [now left|].
  fold (run decodeAudioData tr (step decodeAudioData t e s)).
  destruct (IH (step decodeAudioData t e s)) as [H | H]; [|now right].
  rewrite H. apply step_mood.
Qed.

End Moods.

Section Frames.

Variable decodeAudioData : string -> option Z.

(** Clearing and setting the timeout leaves the rest of the state alone. *)
Lemma rearm_view now s :
  let s' := armSilenceTimer now (clearSilenceTimer s) in
  playback_view s' = playback_view s /\
  isPausedRef (st_app s') = isPausedRef (st_app s) /\
  isPaused (st_app s') = isPaused (st_app s) /\
  babyState (st_app s') = babyState (st_app s) /\
  volume_sq (st_app s') = volume_sq (st_app s) /\
  outbound (st_env s') = outbound (st_env s) /\
  timers (st_env s') <> [].
Proof.
  pose proof (clearSilenceTimer_app s) as Ha.
  pose proof (clearSilenceTimer_env s) as He.
  set (x := clearSilenceTimer s) in *. clearbody x.
  destruct x as [a e]. cbn [st_app st_env] in Ha, He. subst a.
  destruct e as [tm nt pl ns ob co]. cbn [timers] in He.
  injection He as -> -> -> -> ->.
  unfold playback_view. cbv zeta. repeat split.
  unfold armSilenceTimer. cbn [st_env timers set_silenceTimer set_next_timer set_timers
                                with_app with_env].
  intros F. apply (f_equal (@List.length _)) in F. rewrite length_app in F.
  cbn [List.length] in F. lia.
Qed.

Lemma advance_view t s :
  playback_view (advance t s) = playback_view s /\
  isPaused (st_app (advance t s)) = isPaused (st_app s) /\
  volume_sq (st_app (advance t s)) = volume_sq (st_app s) /\
  outbound (st_env (advance t s)) = outbound (st_env s).
Proof.
  destruct (advance_shape t s) as (b & tm & -> & _). now repeat split.
Qed.

Lemma onopen_view now s :
  playback_view (onopen now s) = playback_view s /\
  isPausedRef (st_app (onopen now s)) = isPausedRef (st_app s) /\
  babyState (st_app (onopen now s)) = LISTENING /\
  volume_sq (st_app (onopen now s)) = volume_sq (st_app s) /\
  outbound (st_env (onopen now s)) = outbound (st_env s) /\
  timers (st_env (onopen now s)) <> [].
Proof.
  unfold onopen.
  destruct (rearm_view now (set_lastSpeechTime now (setBabyState LISTENING
              (setMode ACTIVE (setIsConnected true s))))) as (H1 & H2 & _ & H4 & H5 & H6 & H7).
  cbv zeta in *. rewrite H1, H2, H4, H5, H6. now repeat split.
Qed.

Lemma handleSpeechDetected_view now s :
  isPausedRef (st_app s) = false ->
  playback_view (handleSpeechDetected now s) = playback_view s /\
  isPausedRef (st_app (handleSpeechDetected now s)) = false /\
  volume_sq (st_app (handleSpeechDetected now s)) = volume_sq (st_app s) /\
  outbound (st_env (handleSpeechDetected now s)) = outbound (st_env s) /\
  timers (st_env (handleSpeechDetected now s)) <> [] /\
  babyState (st_app (handleSpeechDetected now s))
    = match babyState (st_app s) with
      | CRYING | SLEEPING => LISTENING
      | prev => prev
      end.
Proof.
  intros E. unfold handleSpeechDetected. rewrite E.
  match goal with |- context [clearSilenceTimer ?x] =>
    destruct (rearm_view now x) as (H1 & H2 & _ & H4 & H5 & H6 & H7)
  end.
  cbv zeta in *. rewrite H1, H2, H4, H5, H6.
  repeat split; try assumption. cbn. now destruct (babyState (st_app s)).
Qed.

Lemma onaudioprocess_view inputData now s :
  playback_view (onaudioprocess inputData now s) = playback_view s /\
  isPausedRef (st_app (onaudioprocess inputData now s)) = isPausedRef (st_app s) /\
  outbound (st_env (onaudioprocess inputData now s))
    = outbound (st_env s) ++ (if isPausedRef (st_app s) then [] else [inputData]).
Proof.
  unfold onaudioprocess. destruct (isPausedRef (st_app s)) eqn:E.
  - rewrite E, app_nil_r. now repeat split.
  - destruct (is_speech inputData).
    + match goal with |- context [handleSpeechDetected now ?x] =>
        destruct (handleSpeechDetected_view now x) as (H1 & H2 & _ & H4 & _); [exact E|]
      end.
      rewrite H1, H2, H4. now repeat split.
    + cbn. rewrite E. now repeat split.
Qed.

Lemma onmessage_paused_flag m currentTime s :
  isPausedRef (st_app (onmessage decodeAudioData m currentTime s)) = isPausedRef (st_app s) /\
  volume_sq (st_app (onmessage decodeAudioData m currentTime s)) = volume_sq (st_app s) /\
  outbound (st_env (onmessage decodeAudioData m currentTime s)) = outbound (st_env s).
Proof.
  unfold onmessage. destruct (isPausedRef (st_app s)) eqn:E; [now rewrite E|].
  destruct m as [[|c b]|]; try (now rewrite E).
  destruct (decodeAudioData (String c b)); [|cbn; now rewrite E].
  unfold schedule. destruct (nextStartTimeRef (st_app s) <? currentTime); cbn; now rewrite E.
Qed.

(** Only the toggle changes the pause flag. *)
Lemma handle_isPausedRef e now s :
  e <> TogglePause ->
  isPausedRef (st_app (handle decodeAudioData e now s)) = isPausedRef (st_app s).
Proof.
  destruct e; cbn [handle]; intros Ne; try congruence.
  - apply onopen_view.
  - apply onmessage_paused_flag.
  - reflexivity.
  - apply onaudioprocess_view.
  - reflexivity.
Qed.

Lemma step_isPausedRef now e s :
  e <> TogglePause ->
  isPausedRef (st_app (step decodeAudioData now e s)) = isPausedRef (st_app s).
Proof.
  intros Ne. unfold step. now rewrite handle_isPausedRef, advance_isPausedRef.
Qed.

(** The two branches of the toggle. *)
Lemma pause_view now s :
  sound s -> isPaused (st_app s) = false ->
  babyState (st_app (togglePause now s)) = PAUSED /\
  isPausedRef (st_app (togglePause now s)) = true /\
  timers (st_env (togglePause now s)) = [] /\
  playing (st_env (togglePause now s)) = [] /\
  audioSourcesRef (st_app (togglePause now s)) = [] /\
  nextStartTimeRef (st_app (togglePause now s)) = 0 /\
  volume_sq (st_app (togglePause now s)) = 0%Q /\
  next_source (st_env (togglePause now s)) = next_source (st_env s) /\
  outbound (st_env (togglePause now s)) = outbound (st_env s).
Proof.
  intros H E. unfold togglePause. rewrite E. cbn [negb].
  assert (T : timers (st_env (clearSilenceTimer
                 (set_isPausedRef true (setIsPaused true s)))) = []).
  { apply clearSilenceTimer_timers. destruct_state s. apply H. }
  unfold set_nextStartTime, set_audioSources, with_app.
  cbn [st_app st_env babyState isPausedRef audioSourcesRef nextStartTimeRef volume_sq].
  rewrite !stop_all_app, stop_all_env.
  cbn [timers playing next_source outbound st_env st_app setVolume_sq setBabyState
       updBabyState with_app babyState isPausedRef volume_sq].
  rewrite T, clearSilenceTimer_app, clearSilenceTimer_env.
  cbn [st_app st_env set_isPausedRef setIsPaused with_app isPausedRef audioSourcesRef
       playing next_source outbound].
  destruct H as (_ & _ & _ & Hs & _). unfold playback_inv in Hs.
  repeat split. rewrite <- Hs. apply stop_all_tracked.
Qed.

Lemma resume_view now s :
  isPaused (st_app s) = true ->
  babyState (st_app (togglePause now s)) = LISTENING /\
  isPausedRef (st_app (togglePause now s)) = false /\
  timers (st_env (togglePause now s)) <> [] /\
  playback_view (togglePause now s) = playback_view s /\
  outbound (st_env (togglePause now s)) = outbound (st_env s).
Proof.
  intros E. unfold togglePause. rewrite E. cbn [negb].
  match goal with |- context [clearSilenceTimer ?x] =>
    destruct (rearm_view now x) as (H1 & H2 & _ & H4 & _ & H6 & H7)
  end.
  cbv zeta in *. rewrite H1, H2, H4, H6. now repeat split.
Qed.

End Frames.

Section MoreInvariants.

Variable decodeAudioData : string -> option Z.

Lemma view_fields s s' :
  playback_view s' = playback_view s ->
  playing (st_env s') = playing (st_env s) /\
  next_source (st_env s') = next_source (st_env s) /\
  nextStartTimeRef (st_app s') = nextStartTimeRef (st_app s) /\
  audioSourcesRef (st_app s') = audioSourcesRef (st_app s).
Proof. unfold playback_view. intros [= H1 H2 H3 H4]. auto. Qed.

(** *** A timeout is pending exactly while the baby listens *)

Lemma mood_inv_advance t s : sound s -> mood_inv s -> mood_inv (advance t s).
Proof.
  intros W M.
  destruct W as ([T | (id & _ & T)] & _).
  - now rewrite advance_no_timer.
  - destruct (Z_lt_le_dec t (lastSpeechTimeRef (st_app s) + SILENCE_TOLERANCE_MS)).
    + now rewrite (advance_sole_early _ _ _ _ T).
    + rewrite (advance_sole_due _ _ _ _ T) by assumption.
      unfold mood_inv. cbn. repeat split; try congruence; try discriminate.
Qed.

Lemma mood_inv_handle e now s :
  sound s -> mood_inv s -> mood_inv (handle decodeAudioData e now s).
Proof.
  intros W [M H]. unfold mood_inv.
  destruct e; cbn [handle].
  - destruct (onopen_view now s) as (_ & _ & Hb & _ & _ & Ht). rewrite Hb.
    repeat split; auto; discriminate.
  - destruct (onmessage_frame decodeAudioData m currentTime s) as (Hb & _ & _ & Ht).
    now rewrite Hb, Ht.
  - now split.
  - unfold onaudioprocess. destruct (isPausedRef (st_app s)) eqn:E; [now split|].
    destruct (is_speech inputData); [|now split].
    match goal with |- context [handleSpeechDetected now ?x] =>
      destruct (handleSpeechDetected_view now x) as (_ & _ & _ & _ & Ht & Hb); [exact E|]
    end.
    rewrite Hb. cbn [st_app setVolume_sq set_outbound with_app with_env babyState].
    destruct W as (_ & _ & Hm & _).
    destruct (babyState (st_app s)) eqn:B; try (repeat split; auto; discriminate).
    + congruence.
    + rewrite (Hm eq_refl) in E. discriminate.
  - destruct (isPaused (st_app s)) eqn:E.
    + destruct (resume_view now s E) as (Hb & _ & Ht & _). rewrite Hb.
      repeat split; auto; discriminate.
    + destruct (pause_view now s W E) as (Hb & _ & Ht & _). rewrite Hb, Ht.
      repeat split; try congruence; discriminate.
  - now split.
Qed.

(** *** A paused session plays nothing *)

Lemma paused_idle_advance t s : paused_idle s -> paused_idle (advance t s).
Proof.
  unfold paused_idle. rewrite advance_isPausedRef.
  destruct (advance_view t s) as (Hv & _ & Hvol & _).
  destruct (view_fields _ _ Hv) as (-> & _ & -> & ->). now rewrite Hvol.
Qed.

Lemma paused_idle_handle e now s :
  sound s -> paused_idle s -> paused_idle (handle decodeAudioData e now s).
Proof.
  intros W P. unfold paused_idle in *.
  destruct e; cbn [handle].
  - destruct (onopen_view now s) as (Hv & Hp & _ & Hvol & _).
    destruct (view_fields _ _ Hv) as (-> & _ & -> & ->). now rewrite Hp, Hvol.
  - intros F. rewrite (proj1 (onmessage_paused_flag decodeAudioData m currentTime s)) in F.
    unfold onmessage. rewrite F. exact (P F).
  - exact P.
  - intros F. rewrite (proj1 (proj2 (onaudioprocess_view inputData now s))) in F.
    unfold onaudioprocess. rewrite F. exact (P F).
  - destruct (isPaused (st_app s)) eqn:E.
    + destruct (resume_view now s E) as (_ & Hp & _). intros F. congruence.
    + destruct (pause_view now s W E) as (_ & _ & _ & H4 & H5 & H6 & H7 & _). auto.
  - intros F. cbn [onended st_app set_audioSources stop_source set_playing with_app with_env
                   isPausedRef] in F.
    destruct (P F) as (H1 & H2 & H3 & H4).
    unfold onended, stop_source. cbn. rewrite H1, H2. cbn. auto.
Qed.

(** *** The sources have handles of their own *)

Lemma distinct_inv_view s s' :
  playback_view s' = playback_view s -> distinct_inv s -> distinct_inv s'.
Proof.
  intros Hv. destruct (view_fields _ _ Hv) as (H1 & H2 & _).
  unfold distinct_inv. now rewrite H1, H2.
Qed.

Lemma distinct_inv_schedule currentTime d s : distinct_inv s -> distinct_inv (schedule currentTime d s).
Proof.
  intros [Hn Hf]. unfold distinct_inv.
  assert (P : playing (st_env (schedule currentTime d s))
              = playing (st_env s) ++ [scheduled_chunk currentTime d s])
    by apply schedule_spec.
  assert (N : next_source (st_env (schedule currentTime d s)) = Pos.succ (next_source (st_env s))).
  { unfold schedule. now destruct (nextStartTimeRef (st_app s) <? currentTime). }
  rewrite P, N. split.
  - rewrite map_app. cbn [map scheduled_chunk src].
    apply NoDup_app.
    + exact Hn.
    + constructor; [intros []|constructor].
    + intros x Hx [<- | []]. apply in_map_iff in Hx. destruct Hx as (c & Hc & Hin).
      rewrite Forall_forall in Hf. specialize (Hf c Hin). rewrite Hc in Hf. lia.
  - apply Forall_app. split.
    + eapply Forall_impl; [|exact Hf]. cbv beta. intros c Hc. rewrite Pos2Nat.inj_succ. lia.
    + constructor; [|constructor]. cbn [scheduled_chunk src]. rewrite Pos2Nat.inj_succ. lia.
Qed.

Lemma NoDup_map_filter {A B} (f : A -> B) (p : A -> bool) l :
  NoDup (map f l) -> NoDup (map f (filter p l)).
Proof.
  induction l as [|a l IH]; cbn [map filter]; [auto|].
  intros H. inversion H as [|x xs Hx Hxs]; subst.
  destruct (p a); cbn [map]; [|now apply IH].
  constructor; [|now apply IH].
  intros Hin. apply Hx. apply in_map_iff in Hin. destruct Hin as (c & Hc & Hin).
  apply filter_In in Hin. apply in_map_iff. exists c. tauto.
Qed.

Lemma Forall_filter {A} (P : A -> Prop) (p : A -> bool) l :
  Forall P l -> Forall P (filter p l).
Proof.
  intros H. apply Forall_forall. intros x Hx. apply filter_In in Hx.
  rewrite Forall_forall in H. now apply H.
Qed.

Lemma distinct_inv_handle e now s :
  sound s -> distinct_inv s -> distinct_inv (handle decodeAudioData e now s).
Proof.
  intros W D. destruct e; cbn [handle].
  - eapply distinct_inv_view; [apply onopen_view|exact D].
  - unfold onmessage. destruct (isPausedRef (st_app s)); [exact D|].
    destruct m as [[|c b]|]; try exact D.
    destruct (decodeAudioData (String c b)); [now apply distinct_inv_schedule|exact D].
  - exact D.
  - eapply distinct_inv_view; [apply onaudioprocess_view|exact D].
  - destruct (isPaused (st_app s)) eqn:E.
    + eapply distinct_inv_view; [apply (resume_view now s E)|exact D].
    + destruct (pause_view now s W E) as (_ & _ & _ & H4 & _).
      unfold distinct_inv. rewrite H4. split; constructor.
  - destruct D as [Hn Hf]. unfold distinct_inv, onended, stop_source, drop_source. cbn.
    split; [now apply NoDup_map_filter|now apply Forall_filter].
Qed.

(** *** All of them, along every run *)

Lemma reachable_session_inv s : reachable decodeAudioData s -> session_inv s.
Proof.
  induction 1 as [t0 | t s R (W & M & P & D) | now e s R (W & M & P & D)].
  - split; [apply sound_init|]. unfold mood_inv, paused_idle, distinct_inv, init. cbn.
    repeat split; try discriminate; try congruence; constructor.
  - split; [now apply sound_advance|]. split; [now apply mood_inv_advance|].
    split; [now apply paused_idle_advance|].
    eapply distinct_inv_view; [apply advance_view|exact D].
  - assert (Wa : sound (advance now s)) by now apply sound_advance.
    split; [now apply sound_step|]. unfold step.
    split; [apply mood_inv_handle; [exact Wa|now apply mood_inv_advance]|].
    split; [apply paused_idle_handle; [exact Wa|now apply paused_idle_advance]|].
    apply distinct_inv_handle; [exact Wa|].
    eapply distinct_inv_view; [apply advance_view|exact D].
Qed.

End MoreInvariants.

Section Ordering.

Variable decodeAudioData : string -> option Z.
Hypothesis decoder_sound : sound_decoder decodeAudioData.

Lemma ordered_app_one l c :
  ordered l -> Forall (fun c' => start c' + duration c' <= start c) l -> ordered (l ++ [c]).
Proof.
  induction l as [|a l IH]; cbn [ordered List.app]; intros H F.
  - split; constructor.
  - destruct H as [Ha Hl]. inversion F as [|x xs Fa Fl]; subst. split.
    + apply Forall_app. split; [exact Ha|]. constructor; [exact Fa|constructor].
    + now apply IH.
Qed.

Lemma ordered_filter (p : chunk -> bool) l : ordered l -> ordered (filter p l).
Proof.
  induction l as [|a l IH]; cbn [ordered filter]; [auto|].
  intros [Ha Hl]. destruct (p a); cbn [ordered]; [|now apply IH].
  split; [now apply Forall_filter|now apply IH].
Qed.

Lemma ordered_inv_view s s' :
  playback_view s' = playback_view s -> ordered_inv s -> ordered_inv s'.
Proof.
  intros Hv. destruct (view_fields _ _ Hv) as (H1 & _ & H3 & _).
  unfold ordered_inv. now rewrite H1, H3.
Qed.

Lemma ordered_inv_schedule currentTime d s :
  0 <= d -> ordered_inv s -> ordered_inv (schedule currentTime d s).
Proof.
  intros Hd [Ho Hf]. unfold ordered_inv.
  destruct (schedule_spec currentTime d s) as (P & C & _). rewrite P, C.
  set (c := scheduled_chunk currentTime d s).
  assert (Hc : nextStartTimeRef (st_app s) <= start c).
  { unfold c, scheduled_chunk. cbn [start].
    destruct (Z.ltb_spec (nextStartTimeRef (st_app s)) currentTime); lia. }
  split.
  - apply ordered_app_one; [exact Ho|].
    eapply Forall_impl; [|exact Hf]. cbv beta. intros a Ha. lia.
  - apply Forall_app. split.
    + eapply Forall_impl; [|exact Hf]. cbv beta. intros a Ha. lia.
    + constructor; [|constructor]. unfold c at 2. cbn [scheduled_chunk duration]. lia.
Qed.

Lemma ordered_inv_handle e now s :
  sound s -> ordered_inv s -> ordered_inv (handle decodeAudioData e now s).
Proof.
  intros W D. destruct e; cbn [handle].
  - eapply ordered_inv_view; [apply onopen_view|exact D].
  - unfold onmessage. destruct (isPausedRef (st_app s)); [exact D|].
    destruct m as [[|c b]|]; try exact D.
    destruct (decodeAudioData (String c b)) as [d|] eqn:Hd; [|exact D].
    apply ordered_inv_schedule; [|exact D]. eapply decoder_sound; exact Hd.
  - exact D.
  - eapply ordered_inv_view; [apply onaudioprocess_view|exact D].
  - destruct (isPaused (st_app s)) eqn:E.
    + eapply ordered_inv_view; [apply (resume_view now s E)|exact D].
    + destruct (pause_view now s W E) as (_ & _ & _ & H4 & _).
      unfold ordered_inv. rewrite H4. split; constructor.
  - destruct D as [Ho Hf]. unfold ordered_inv, onended, stop_source, drop_source. cbn.
    split; [now apply ordered_filter|now apply Forall_filter].
Qed.

Lemma reachable_ordered_inv s : reachable decodeAudioData s -> ordered_inv s.
Proof.
  induction 1 as [t0 | t s R IH | now e s R IH].
  - unfold ordered_inv, init. cbn. split; constructor.
  - eapply ordered_inv_view; [apply advance_view|exact IH].
  - unfold step. apply ordered_inv_handle.
    + apply sound_advance. now apply (reachable_sound decodeAudioData).
    + eapply ordered_inv_view; [apply advance_view|exact IH].
Qed.

End Ordering.

Section Idle.

Variable decodeAudioData : string -> option Z.


(** A paused session that plays nothing ignores the capture loop, the
    channel and the output context altogether. *)
Lemma background_step_paused now e s :
  background e = true -> isPausedRef (st_app s) = true ->
  timers (st_env s) = [] -> playing (st_env s) = [] -> audioSourcesRef (st_app s) = [] ->
  step decodeAudioData now e s = s.
Proof.
  intros B E T P A. unfold step. rewrite (advance_no_timer now s T).
  destruct e; try discriminate; cbn [handle].
  - unfold onmessage. now rewrite E.
  - unfold onaudioprocess. now rewrite E.
  - destruct_state s. cbn in P, A. subst. reflexivity.
Qed.

End Idle.

(** X1.  In every reachable state at most one timeout is pending, and it is
    the one [silenceTimerRef] designates, due [SILENCE_TOLERANCE_MS] after
    [lastSpeechTimeRef]: every [setTimeout] of the component comes after the
    [clearTimeout] of its predecessor. *)
Theorem one_timeout_pending (decodeAudioData : string -> option Z) (s : state) :
  reachable decodeAudioData s ->
  (List.length (timers (st_env s)) <= 1)%nat /\
  forall id d, In (id, d) (timers (st_env s)) ->
    silenceTimerRef (st_app s) = Some id /\
    d = lastSpeechTimeRef (st_app s) + SILENCE_TOLERANCE_MS.
Proof.
  intros R. destruct (reachable_sound _ _ R) as ([T | (id & Hid & T)] & _); rewrite T.
  - split; [cbn; lia|intros ? ? []].
  - split; [cbn; lia|]. intros id' d' [[= <- <-] | []]. now split.
Qed.

Example one_timeout_pending_witness :
  reachable sample_decoder busy /\
  (List.length (timers (st_env busy)) <= 1)%nat /\
  silenceTimerRef (st_app busy) = Some 2%positive.
Proof.
  split; [exact busy_reachable|].
  destruct (one_timeout_pending sample_decoder busy busy_reachable) as [H1 H2].
  split; [exact H1|]. apply (H2 2%positive 2150). vm_compute. now left.
Defined.

(** X2.  In every reachable state a timeout is pending exactly when the
    mood is [LISTENING]: the baby listens until the timeout runs or the
    session is paused, and nothing else sets one. *)
Theorem listening_iff_timeout_pending (decodeAudioData : string -> option Z) (s : state) :
  reachable decodeAudioData s ->
  (timers (st_env s) <> [] <-> babyState (st_app s) = LISTENING).
Proof.
  intros R. now destruct (reachable_session_inv _ _ R) as (_ & [M _] & _).
Qed.

Example listening_iff_timeout_pending_witness :
  reachable sample_decoder busy /\ babyState (st_app busy) = LISTENING /\
  timers (st_env busy) <> [].
Proof.
  split; [exact busy_reachable|].
  assert (L : babyState (st_app busy) = LISTENING) by (vm_compute; reflexivity).
  split; [exact L|].
  apply (proj2 (listening_iff_timeout_pending sample_decoder busy busy_reachable) L).
Defined.

(** X3.  No reachable state has the mood [HAPPY]: the component never sets
    it. *)
Theorem happy_never_reached (decodeAudioData : string -> option Z) (s : state) :
  reachable decodeAudioData s -> babyState (st_app s) <> HAPPY.
Proof.
  intros R. now destruct (reachable_session_inv _ _ R) as (_ & [_ M] & _).
Qed.

Example happy_never_reached_witness :
  reachable sample_decoder paused_busy /\ babyState (st_app paused_busy) <> HAPPY.
Proof.
  split; [exact paused_busy_reachable|].
  exact (happy_never_reached sample_decoder paused_busy paused_busy_reachable).
Defined.

(** X4.  Once the mood has left [SLEEPING] no event and no lapse of time
    brings it back, the closing of the channel included. *)
Theorem sleeping_never_reentered (decodeAudioData : string -> option Z)
    (tr : list (Z * event)) (t : Z) (s : state) :
  babyState (st_app s) <> SLEEPING ->
  babyState (st_app (advance t (run decodeAudioData tr s))) <> SLEEPING.
Proof.
  intros H.
  destruct (advance_shape t (run decodeAudioData tr s)) as (b & tm & -> & Hb).
  cbn. destruct Hb as [-> | ->]; [|discriminate].
  destruct (run_mood decodeAudioData tr s) as [E | [E | [E | E]]]; rewrite E;
    try assumption; discriminate.
Qed.

Example sleeping_never_reentered_witness :
  babyState (st_app (step sample_decoder 0 Open (init 0))) <> SLEEPING /\
  babyState (st_app (advance 9000
     (run sample_decoder [(100, Close); (200, TogglePause); (300, TogglePause)]
        (step sample_decoder 0 Open (init 0))))) <> SLEEPING.
Proof.
  assert (H : babyState (st_app (step sample_decoder 0 Open (init 0))) <> SLEEPING)
    by (vm_compute; discriminate).
  split; [exact H|].
  exact (sleeping_never_reentered sample_decoder
           [(100, Close); (200, TogglePause); (300, TogglePause)] 9000 _ H).
Defined.



(** X6.  In every reachable paused state, whatever was delivered during
    the pause, the channel opening included: nothing plays and nothing is
    tracked, the playback cursor is at 0 and the volume shown is 0.  A
    timeout is pending there only if the mood is [LISTENING], which is the
    doing of a channel that opened during the pause; in the mood [PAUSED],
    as in every mood but [LISTENING], none is. *)
Theorem nothing_plays_while_paused (decodeAudioData : string -> option Z) (s : state) :
  reachable decodeAudioData s -> isPausedRef (st_app s) = true ->
  isPaused (st_app s) = true /\
  playing (st_env s) = [] /\ audioSourcesRef (st_app s) = [] /\
  nextStartTimeRef (st_app s) = 0 /\ volume_sq (st_app s) = 0%Q /\
  (babyState (st_app s) <> LISTENING -> timers (st_env s) = []).
Proof.
  intros R E.
  destruct (reachable_session_inv _ _ R) as ((_ & Hp & _) & [M _] & P & _).
  destruct (P E) as (H1 & H2 & H3 & H4).
  split; [congruence|]. repeat split; auto.
  intros N. destruct (timers (st_env s)) as [|p l]; [reflexivity|].
  exfalso. apply N, M. discriminate.
Qed.

Example nothing_plays_while_paused_witness :
  reachable sample_decoder paused_busy /\ isPausedRef (st_app paused_busy) = true /\
  List.length (playing (st_env busy)) = 2%nat /\ playing (st_env paused_busy) = [].
Proof.
  assert (E : isPausedRef (st_app paused_busy) = true) by (vm_compute; reflexivity).
  split; [exact paused_busy_reachable|]. split; [exact E|].
  split; [vm_compute; reflexivity|].
  apply (nothing_plays_while_paused sample_decoder paused_busy paused_busy_reachable E).
Defined.

(** X7.  A reachable paused state whose mood is not [LISTENING], such as
    the pause request leaves it, is frozen: whatever frames the capture
    loop delivers, whatever messages the channel delivers and whatever
    sources end, at whatever instants, the state stays the very same.  (A
    paused state whose mood is [LISTENING], which takes a channel that
    opened during the pause, has a timeout pending and is not frozen.) *)
Theorem paused_session_is_frozen (decodeAudioData : string -> option Z)
    (tr : list (Z * event)) (s : state) :
  reachable decodeAudioData s -> isPausedRef (st_app s) = true ->
  babyState (st_app s) <> LISTENING ->
  forallb (fun te => background (snd te)) tr = true ->
  run decodeAudioData tr s = s.
Proof.
  intros R E N B.
  destruct (reachable_session_inv _ _ R) as (_ & [M _] & P & _).
  destruct (P E) as (H1 & H2 & _).
  assert (Ht : timers (st_env s) = []).
  { destruct (timers (st_env s)) as [|p l]; [reflexivity|].
    exfalso. apply N, M. discriminate. }
  induction tr as [|[t e] tr IH]; [reflexivity|].
  cbn [forallb snd] in B. apply andb_true_iff in B. destruct B as [Be B].
  cbn [run fold_left fst snd].
  rewrite (background_step_paused decodeAudioData t e s Be E Ht H1 H2).
  now apply IH.
Qed.

Example paused_session_is_frozen_witness :
  reachable sample_decoder paused_busy /\ isPausedRef (st_app paused_busy) = true /\
  babyState (st_app paused_busy) <> LISTENING /\
  run sample_decoder
    [(300, Message (Some "AAAA"%string) 300); (5000, AudioProcess [1 # 2]%Q);
     (6000, Ended 1%positive)] paused_busy = paused_busy.
Proof.
  assert (E : isPausedRef (st_app paused_busy) = true) by (vm_compute; reflexivity).
  assert (N : babyState (st_app paused_busy) <> LISTENING) by (vm_compute; discriminate).
  split; [exact paused_busy_reachable|]. split; [exact E|]. split; [exact N|].
  apply (paused_session_is_frozen sample_decoder _ paused_busy paused_busy_reachable E N).
  reflexivity.
Defined.

(** X8.  In every reachable state the tracked sources are the sources the
    output context plays, in the same order, and no handle occurs twice:
    the list that stands for the [Set] of the source is a set. *)
Theorem sources_distinct (decodeAudioData : string -> option Z) (s : state) :
  reachable decodeAudioData s ->
  audioSourcesRef (st_app s) = map src (playing (st_env s)) /\
  NoDup (audioSourcesRef (st_app s)).
Proof.
  intros R.
  destruct (reachable_session_inv _ _ R) as ((_ & _ & _ & Hs & _) & _ & _ & [D _]).
  unfold playback_inv in Hs. rewrite <- Hs. now split.
Qed.

Example sources_distinct_witness :
  reachable sample_decoder busy /\
  audioSourcesRef (st_app busy) = [1%positive; 2%positive] /\
  NoDup (audioSourcesRef (st_app busy)).
Proof.
  split; [exact busy_reachable|]. split; [vm_compute; reflexivity|].
  apply (sources_distinct sample_decoder busy busy_reachable).
Defined.

Lemma queued_reachable : reachable length_decoder queued.
Proof.
  unfold queued, run. cbn [fold_left fst snd].
  repeat (apply reach_step). apply reach_init.
Qed.

Lemma length_decoder_sound : sound_decoder length_decoder.
Proof. intros b d [= <-]. lia. Qed.

(** X9.  With a decoder that yields no negative duration, the sources of
    every reachable state play one after the other: each one ends at or
    before the start of every later one, and the cursor lies at or after
    the end of them all.  No two of them ever sound together. *)
Theorem playing_never_overlaps (decodeAudioData : string -> option Z) (s : state) :
  sound_decoder decodeAudioData -> reachable decodeAudioData s ->
  ordered (playing (st_env s)) /\
  Forall (fun c => start c + duration c <= nextStartTimeRef (st_app s))
         (playing (st_env s)).
Proof.
  intros D R. exact (reachable_ordered_inv decodeAudioData D s R).
Qed.

Example playing_never_overlaps_witness :
  sound_decoder length_decoder /\ reachable length_decoder queued /\
  playing (st_env queued)
    = [mkChunk 1%positive 5 3; mkChunk 2%positive 9 2; mkChunk 3%positive 11 4] /\
  ordered (playing (st_env queued)).
Proof.
  split; [exact length_decoder_sound|]. split; [exact queued_reachable|].
  split; [vm_compute; reflexivity|].
  apply (playing_never_overlaps length_decoder queued length_decoder_sound queued_reachable).
Defined.

Section Streaming.

Variable decodeAudioData : string -> option Z.

Lemma step_outbound now e s :
  e <> TogglePause ->
  outbound (st_env (step decodeAudioData now e s))
  = outbound (st_env s)
    ++ (if isPausedRef (st_app s) then [] else frames_of [(now, e)]).
Proof.
  intros Ne. unfold step.
  destruct (advance_view now s) as (_ & _ & _ & Ho).
  pose proof (advance_isPausedRef now s) as Hp.
  set (a := advance now s) in *. clearbody a. rewrite <- Ho, <- Hp.
  unfold frames_of. cbn [flat_map snd].
  destruct e; cbn [handle]; try congruence; rewrite ?app_nil_r.
  - rewrite (proj1 (proj2 (proj2 (proj2 (proj2 (onopen_view now a)))))).
    destruct (isPausedRef (st_app a)); now rewrite app_nil_r.
  - rewrite (proj2 (proj2 (onmessage_paused_flag decodeAudioData m currentTime a))).
    destruct (isPausedRef (st_app a)); now rewrite app_nil_r.
  - cbn. destruct (isPausedRef (st_app a)); now rewrite app_nil_r.
  - now rewrite (proj2 (proj2 (onaudioprocess_view inputData now a))).
  - cbn. destruct (isPausedRef (st_app a)); now rewrite app_nil_r.
Qed.

Lemma frames_of_cons te tr : frames_of (te :: tr) = frames_of [te] ++ frames_of tr.
Proof. unfold frames_of. cbn [flat_map]. now rewrite app_nil_r. Qed.

End Streaming.

(** X10.  Along a run without a toggle, a session that is not paused
    registers on [sessionPromise] the sending of every captured frame, in
    order and once each, whether the detector takes the frame for speech
    or not; a paused session registers none.  What [sendRealtimeInput]
    receives is up to the promise: these very frames once it is fulfilled,
    nothing while [connect] is pending and nothing ever if it rejects. *)
Theorem frames_streamed (decodeAudioData : string -> option Z)
    (tr : list (Z * event)) (s : state) :
  no_toggle tr = true ->
  outbound (st_env (run decodeAudioData tr s))
  = outbound (st_env s) ++ (if isPausedRef (st_app s) then [] else frames_of tr) /\
  sent Fulfilled (run decodeAudioData tr s)
  = sent Fulfilled s ++ (if isPausedRef (st_app s) then [] else frames_of tr) /\
  sent Pending (run decodeAudioData tr s) = [] /\
  sent Rejected (run decodeAudioData tr s) = [].
Proof.
  intros N.
  assert (H : outbound (st_env (run decodeAudioData tr s))
              = outbound (st_env s)
                ++ (if isPausedRef (st_app s) then [] else frames_of tr)).
  { revert s. induction tr as [|[t e] tr IH]; intros s.
    - cbn. destruct (isPausedRef (st_app s)); now rewrite app_nil_r.
    - cbn [no_toggle forallb snd] in N. apply andb_true_iff in N. destruct N as [Ne N].
      assert (Ne' : e <> TogglePause) by (intros ->; discriminate).
      cbn [run fold_left fst snd]. fold (run decodeAudioData tr (step decodeAudioData t e s)).
      rewrite (IH N), (step_isPausedRef decodeAudioData t e s Ne'),
        (step_outbound decodeAudioData t e s Ne'), (frames_of_cons (t, e) tr).
      destruct (isPausedRef (st_app s)); now rewrite <- ?app_assoc, ?app_nil_r. }
  repeat split; exact H.
Qed.

Example frames_streamed_witness :
  no_toggle [(0, AudioProcess [1 # 2]%Q); (10, Open); (20, AudioProcess [0]%Q); (30, Close);
             (40, AudioProcess [1 # 3]%Q)] = true /\
  sent Fulfilled (run sample_decoder
     [(0, AudioProcess [1 # 2]%Q); (10, Open); (20, AudioProcess [0]%Q); (30, Close);
      (40, AudioProcess [1 # 3]%Q)] (init 0))
  = [[1 # 2]; [0]; [1 # 3]]%Q.
Proof.
  split; [reflexivity|].
  destruct (frames_streamed sample_decoder
             [(0, AudioProcess [1 # 2]%Q); (10, Open); (20, AudioProcess [0]%Q); (30, Close);
              (40, AudioProcess [1 # 3]%Q)] (init 0) eq_refl) as (_ & H & _).
  rewrite H. reflexivity.
Defined.

(** X13.  The cleanup of the unmount effect, in a reachable state: no
    timeout is left, so the mood is settled for good, whatever time
    passes; the sources of the output context keep playing, for the
    cleanup stops none. *)
Theorem unmount_settles_the_mood (decodeAudioData : string -> option Z)
    (t : Z) (s : state) :
  reachable decodeAudioData s ->
  timers (st_env (unmount s)) = [] /\
  advance t (unmount s) = unmount s /\
  babyState (st_app (advance t (unmount s))) = babyState (st_app s) /\
  playing (st_env (unmount s)) = playing (st_env s).
Proof.
  intros R. unfold unmount.
  assert (T : timers (st_env (clearSilenceTimer s)) = []).
  { apply clearSilenceTimer_timers. apply (reachable_sound _ _ R). }
  rewrite (advance_no_timer t _ T), clearSilenceTimer_app.
  repeat split; [exact T|]. now rewrite clearSilenceTimer_env.
Qed.

Example unmount_settles_the_mood_witness :
  reachable sample_decoder busy /\
  babyState (st_app (advance 9000 busy)) = CRYING /\
  babyState (st_app (advance 9000 (unmount busy))) = LISTENING /\
  List.length (playing (st_env (unmount busy))) = 2%nat.
Proof.
  split; [exact busy_reachable|]. split; [vm_compute; reflexivity|].
  destruct (unmount_settles_the_mood sample_decoder 9000 busy busy_reachable)
    as (_ & _ & H3 & H4).
  rewrite H3, H4. split; vm_compute; reflexivity.
Defined.

Section Loudness.

Local Open Scope Q_scope.

Lemma fold_squares l a : fold_left (fun sum x => sum + x * x) l a == a + squares l.
Proof.
  revert a. induction l as [|x l IH]; intros a; cbn [fold_left squares].
  - ring.
  - rewrite IH. ring.
Qed.

Lemma sum_squares_squares l : sum_squares l == squares l.
Proof. unfold sum_squares. rewrite fold_squares. ring. Qed.

Lemma squares_le l b :
  Forall (fun x => x * x <= b) l -> squares l <= inject_Z (Z.of_nat (List.length l)) * b.
Proof.
  induction 1 as [|x l Hx _ IH]; cbn [squares List.length].
  - cbn. ring_simplify. apply Qle_refl.
  - rewrite Nat2Z.inj_succ. unfold Z.succ. rewrite inject_Z_plus.
    change (inject_Z 1) with 1.
    setoid_replace ((inject_Z (Z.of_nat (List.length l)) + 1) * b)
      with (b + inject_Z (Z.of_nat (List.length l)) * b) by ring.
    now apply Qplus_le_compat.
Qed.

Lemma squares_gt l b :
  l <> [] -> Forall (fun x => b < x * x) l ->
  inject_Z (Z.of_nat (List.length l)) * b < squares l.
Proof.
  intros Hl H. induction H as [|x l Hx Hr IH]; [congruence|].
  cbn [squares List.length]. rewrite Nat2Z.inj_succ. unfold Z.succ. rewrite inject_Z_plus.
  change (inject_Z 1) with 1.
  set (n := inject_Z (Z.of_nat (List.length l))).
  setoid_replace ((n + 1) * b) with (b + n * b) by ring.
  destruct l as [|y l].
  - unfold n. cbn [List.length squares Z.of_nat]. change (inject_Z 0) with 0.
    setoid_replace (b + 0 * b) with b by ring.
    setoid_replace (x * x + 0) with (x * x) by ring. exact Hx.
  - apply Qplus_lt_le_compat; [exact Hx|]. apply Qlt_le_weak. apply IH. discriminate.
Qed.

Lemma length_pos_Q (l : list Q) : l <> [] -> 0 < inject_Z (Z.of_nat (List.length l)).
Proof.
  intros Hl. change 0 with (inject_Z 0). rewrite <- Zlt_Qlt.
  destruct l; [congruence|]. cbn [List.length]. lia.
Qed.

Lemma mean_square_empty : mean_square [] == 0.
Proof. reflexivity. Qed.

Lemma mean_square_le l b :
  0 <= b -> Forall (fun x => x * x <= b) l -> mean_square l <= b.
Proof.
  intros Hb H. destruct l as [|x l].
  - rewrite mean_square_empty. exact Hb.
  - unfold mean_square. rewrite sum_squares_squares.
    apply Qle_shift_div_r; [apply length_pos_Q; discriminate|].
    rewrite Qmult_comm. now apply squares_le.
Qed.

Lemma mean_square_gt l b :
  l <> [] -> Forall (fun x => b < x * x) l -> b < mean_square l.
Proof.
  intros Hl H. unfold mean_square. rewrite sum_squares_squares.
  apply Qlt_shift_div_l; [now apply length_pos_Q|].
  rewrite Qmult_comm. now apply squares_gt.
Qed.

Lemma is_speech_spec l :
  is_speech l = true <-> SPEECH_THRESHOLD * SPEECH_THRESHOLD < mean_square l.
Proof.
  unfold is_speech. rewrite negb_true_iff. split.
  - intros H. apply Qnot_le_lt. intros L. apply Qle_bool_iff in L. congruence.
  - intros H. destruct (Qle_bool _ _) eqn:E; [|reflexivity].
    apply Qle_bool_iff in E. apply Qle_not_lt in E. contradiction.
Qed.

Lemma square_le_square a b : 0 <= b -> - b <= a -> a <= b -> a * a <= b * b.
Proof. intros. nra. Qed.

Lemma square_lt_square a b : 0 <= b -> (b < a \/ a < - b) -> b * b < a * a.
Proof. intros Hb [H | H]; nra. Qed.

End Loudness.

(** X12.  A frame none of whose samples exceeds the threshold in magnitude
    is not speech, however long it is; the empty frame is such a frame. *)
Theorem quiet_samples_are_not_speech (inputData : list Q) :
  Forall (fun x => (- SPEECH_THRESHOLD <= x /\ x <= SPEECH_THRESHOLD)%Q) inputData ->
  is_speech inputData = false.
Proof.
  intros H. destruct (is_speech inputData) eqn:E; [|reflexivity].
  apply is_speech_spec in E. exfalso. apply (Qlt_not_le _ _ E).
  apply mean_square_le; [unfold SPEECH_THRESHOLD; nra|].
  eapply Forall_impl; [|exact H]. cbv beta. intros x [Hlo Hhi].
  apply square_le_square; [unfold SPEECH_THRESHOLD; lra|assumption|assumption].
Qed.

Example quiet_samples_are_not_speech_witness :
  Forall (fun x => (- SPEECH_THRESHOLD <= x /\ x <= SPEECH_THRESHOLD)%Q)
         [5 # 100; - (5 # 100); 0]%Q /\
  is_speech [5 # 100; - (5 # 100); 0]%Q = false /\ is_speech [] = false.
Proof.
  assert (H : Forall (fun x => (- SPEECH_THRESHOLD <= x /\ x <= SPEECH_THRESHOLD)%Q)
                     [5 # 100; - (5 # 100); 0]%Q)
    by (repeat constructor; discriminate).
  split; [exact H|].
  split; [exact (quiet_samples_are_not_speech _ H)|].
  apply quiet_samples_are_not_speech. constructor.
Defined.

(** X14.  A frame that is not empty and all of whose samples exceed the
    threshold in magnitude is speech. *)
Theorem loud_samples_are_speech (inputData : list Q) :
  inputData <> [] ->
  Forall (fun x => (SPEECH_THRESHOLD < x \/ x < - SPEECH_THRESHOLD)%Q) inputData ->
  is_speech inputData = true.
Proof.
  intros Hn H. apply is_speech_spec. apply mean_square_gt; [exact Hn|].
  eapply Forall_impl; [|exact H]. cbv beta. intros x Hx.
  apply square_lt_square; [unfold SPEECH_THRESHOLD; lra|exact Hx].
Qed.

Example loud_samples_are_speech_witness :
  [6 # 100; - (1 # 2)]%Q <> [] /\
  Forall (fun x => (SPEECH_THRESHOLD < x \/ x < - SPEECH_THRESHOLD)%Q)
         [6 # 100; - (1 # 2)]%Q /\
  is_speech [6 # 100; - (1 # 2)]%Q = true.
Proof.
  assert (Hn : [6 # 100; - (1 # 2)]%Q <> []) by discriminate.
  assert (H : Forall (fun x => (SPEECH_THRESHOLD < x \/ x < - SPEECH_THRESHOLD)%Q)
                     [6 # 100; - (1 # 2)]%Q).
  { constructor; [left; reflexivity|]. constructor; [right; reflexivity|constructor]. }
  split; [exact Hn|]. split; [exact H|].
  exact (loud_samples_are_speech _ Hn H).
Defined.

Section Monitor.

Import BabyMonitor.

Lemma Math_min_le a b : (Math_min a b <= b)%Q.
Proof.
  unfold Math_min. destruct (Qle_bool a b) eqn:E; [now apply Qle_bool_iff|apply Qle_refl].
Qed.

Lemma Math_min_lt c a b : (c < b)%Q -> ((c < Math_min a b)%Q <-> (c < a)%Q).
Proof.
  intros Hc. unfold Math_min. destruct (Qle_bool a b) eqn:E; [tauto|].
  assert (L : (b < a)%Q).
  { apply Qnot_le_lt. intros L. apply Qle_bool_iff in L. congruence. }
  split; intros _; [lra|exact Hc].
Qed.

Lemma level_class_green volume state :
  level_class volume state = BarGreen <-> (SPEECH_THRESHOLD < volume)%Q.
Proof.
  unfold level_class. destruct (Qle_bool volume SPEECH_THRESHOLD) eqn:E; cbn [negb].
  - apply Qle_bool_iff in E. split; [destruct (isCrying state); discriminate|].
    intros H. exfalso. apply (Qlt_not_le _ _ H E).
  - split; [|reflexivity]. intros _. apply Qnot_le_lt. intros L.
    apply Qle_bool_iff in L. congruence.
Qed.

End Monitor.

(** X15.  The volume meter of the monitor: the level bar is green exactly
    when the volume is above [SPEECH_THRESHOLD], which is exactly when the
    bar reaches beyond the threshold marker; the marker stands at 50 and
    the bar never exceeds 100. *)
Theorem meter_green_iff_past_marker (volume : Q) (state : BabyState) :
  (BabyMonitor.level_class volume state = BabyMonitor.BarGreen
   <-> (SPEECH_THRESHOLD < volume)%Q) /\
  ((BabyMonitor.marker_left < BabyMonitor.level_width volume)%Q
   <-> BabyMonitor.level_class volume state = BabyMonitor.BarGreen) /\
  (BabyMonitor.marker_left == 50)%Q /\
  (BabyMonitor.level_width volume <= 100)%Q.
Proof.
  split; [apply level_class_green|]. split; [|split].
  - rewrite level_class_green. unfold BabyMonitor.level_width.
    assert (M : (BabyMonitor.marker_left == 50)%Q) by reflexivity.
    rewrite M, Math_min_lt by reflexivity. unfold SPEECH_THRESHOLD. split; intros H; lra.
  - reflexivity.
  - apply Math_min_le.
Qed.

(** X16.  What the monitor shows of a reachable state: the paused look of
    the baby and its message come only with the resume label of the
    button (not the other way round: after a channel opened during a pause
    the button offers the resume under a listening or crying baby), the
    status bubble has exactly one colour class, and the message of the
    happy baby is never shown. *)
Theorem monitor_pause_consistent (decodeAudioData : string -> option Z) (s : state) :
  reachable decodeAudioData s ->
  (BabyMonitor.isPausedState (babyState (st_app s)) = true ->
   isPaused (st_app s) = true) /\
  (BabyMonitor.message (babyState (st_app s)) = "Paused"%string ->
   BabyMonitor.pause_label (isPaused (st_app s)) = BabyMonitor.ResumeReading) /\
  (BabyMonitor.pause_label (isPaused (st_app s)) = BabyMonitor.PauseReading ->
   BabyMonitor.isPausedState (babyState (st_app s)) = false /\
   BabyMonitor.message (babyState (st_app s)) <> "Paused"%string) /\
  BabyMonitor.bubble_classes (babyState (st_app s))
    = [match babyState (st_app s) with
       | CRYING => BabyMonitor.BubbleRed
       | PAUSED => BabyMonitor.BubbleAmber
       | SLEEPING => BabyMonitor.BubbleSlate
       | _ => BabyMonitor.BubbleGreen
       end] /\
  BabyMonitor.message (babyState (st_app s)) <> "Yay! I love this story!"%string.
Proof.
  intros R.
  destruct (reachable_session_inv _ _ R) as ((_ & Hp & Hm & _) & [_ Hh] & _).
  rewrite Hp.
  destruct (babyState (st_app s)) eqn:B; destruct (isPausedRef (st_app s)) eqn:E;
    try (specialize (Hm eq_refl); discriminate);
    try congruence;
    cbn; repeat split; try discriminate; try reflexivity.
Qed.

Example monitor_pause_consistent_witness :
  reachable sample_decoder paused_busy /\
  BabyMonitor.message (babyState (st_app paused_busy)) = "Paused"%string /\
  BabyMonitor.pause_label (isPaused (st_app paused_busy)) = BabyMonitor.ResumeReading.
Proof.
  split; [exact paused_busy_reachable|].
  assert (M : BabyMonitor.message (babyState (st_app paused_busy)) = "Paused"%string)
    by (vm_compute; reflexivity).
  split; [exact M|].
  destruct (monitor_pause_consistent sample_decoder paused_busy paused_busy_reachable)
    as (_ & H & _).
  apply H. exact M.
Defined.

Section Stories.

Import StoryService.

Lemma generateShortStory_with_key apiKey generateContent topic :
  truthy apiKey = true ->
  exists text, generateShortStory apiKey generateContent topic = Resolved text /\
               text <> EmptyString.
Proof.
  intros K. unfold generateShortStory. rewrite K. cbn [negb].
  destruct (generateContent _) as [[[|c t]|]|]; eexists; split; try reflexivity; discriminate.
Qed.

Lemma generateShortStory_without_key apiKey generateContent topic :
  truthy apiKey = false ->
  generateShortStory apiKey generateContent topic = Rejected "API Key not found".
Proof. intros K. unfold generateShortStory. now rewrite K. Qed.

End Stories.

(** X17.  With an API key, [generateShortStory] always resolves, and to a
    text that is not empty: the text of the response, [default_story] when
    the response has none, [fallback_story] when the request throws.
    Without a key it rejects with the same error whatever the service
    would answer. *)
Theorem story_is_never_empty (apiKey : option string)
    (generateContent : string -> option (option string)) (topic : option string) :
  (StoryService.truthy apiKey = true ->
   exists text, StoryService.generateShortStory apiKey generateContent topic
                = StoryService.Resolved text /\ text <> EmptyString) /\
  (StoryService.truthy apiKey = false ->
   StoryService.generateShortStory apiKey generateContent topic
   = StoryService.Rejected "API Key not found").
Proof.
  split; [apply generateShortStory_with_key|apply generateShortStory_without_key].
Qed.

Example story_is_never_empty_witness :
  StoryService.truthy (Some "k"%string) = true /\
  StoryService.generateShortStory (Some "k"%string) (fun _ => Some (Some ""%string)) None
    = StoryService.Resolved "Once upon a time..." /\
  StoryService.generateShortStory None (fun _ => Some (Some "A story."%string)) None
    = StoryService.Rejected "API Key not found".
Proof.
  split; [reflexivity|].
  split; [reflexivity|].
  apply (proj2 (story_is_never_empty None (fun _ => Some (Some "A story."%string)) None)).
  reflexivity.
Defined.

(** X18.  [handleGenerate] of the story book.  With an API key it ends with
    a story that is not empty and with [loading] off, and the topic it
    asks for is the one typed, or a magical forest when none was typed:
    the default topic of the service is never used.  Without a key it
    leaves [loading] on and the story as it was. *)
Theorem story_book_generates (apiKey : option string)
    (generateContent : string -> option (option string)) (b : StoryService.StoryBook) :
  (StoryService.truthy apiKey = true ->
   StoryService.loading (StoryService.handleGenerate apiKey generateContent b) = false /\
   (exists text,
      StoryService.story (StoryService.handleGenerate apiKey generateContent b) = Some text /\
      text <> EmptyString /\
      StoryService.generateShortStory apiKey generateContent
        (Some (if String.eqb (StoryService.topic b) "" then "a magical forest"%string
               else StoryService.topic b))
      = StoryService.Resolved text)) /\
  (StoryService.truthy apiKey = false ->
   StoryService.loading (StoryService.handleGenerate apiKey generateContent b) = true /\
   StoryService.story (StoryService.handleGenerate apiKey generateContent b)
     = StoryService.story b) /\
  StoryService.topic (StoryService.handleGenerate apiKey generateContent b)
    = StoryService.topic b.
Proof.
  unfold StoryService.handleGenerate. cbn [StoryService.topic StoryService.story].
  assert (T : match StoryService.topic b with
              | EmptyString => "a magical forest"%string
              | String a s => String a s
              end
              = if String.eqb (StoryService.topic b) "" then "a magical forest"%string
                else StoryService.topic b)
    by (destruct (StoryService.topic b); reflexivity).
  rewrite T. clear T.
  set (t := if String.eqb (StoryService.topic b) "" then _ else _).
  pose proof (generateShortStory_with_key apiKey generateContent (Some t)) as Hk.
  pose proof (generateShortStory_without_key apiKey generateContent (Some t)) as Hn.
  split; [|split].
  - intros K. destruct (Hk K) as (text & -> & Ht). cbn. split; [reflexivity|].
    exists text. auto.
  - intros K. rewrite (Hn K). cbn. now split.
  - destruct (StoryService.generateShortStory apiKey generateContent (Some t)); reflexivity.
Qed.

Example story_book_generates_witness :
  StoryService.truthy None = false /\
  StoryService.loading
    (StoryService.handleGenerate None (fun _ => Some (Some "A story."%string))
       (StoryService.mkStoryBook None false "cats")) = true /\
  StoryService.story
    (StoryService.handleGenerate (Some "k"%string) (fun p => Some (Some p))
       (StoryService.mkStoryBook None false ""))
  = Some (StoryService.prompt "a magical forest").
Proof.
  split; [reflexivity|].
  destruct (story_book_generates None (fun _ => Some (Some "A story."%string))
              (StoryService.mkStoryBook None false "cats")) as (_ & H & _).
  split; [apply H; reflexivity|reflexivity].
Defined.

Section Cursor.

Variable decodeAudioData : string -> option Z.
Hypothesis decoder_sound : sound_decoder decodeAudioData.

Lemma step_cursor now e s :
  e <> TogglePause ->
  nextStartTimeRef (st_app s) <= nextStartTimeRef (st_app (step decodeAudioData now e s)).
Proof.
  intros Ne. unfold step.
  destruct (view_fields _ _ (proj1 (advance_view now s))) as (_ & _ & <- & _).
  set (a := advance now s). clearbody a.
  destruct e; cbn [handle]; try congruence.
  - destruct (view_fields _ _ (proj1 (onopen_view now a))) as (_ & _ & -> & _). lia.
  - unfold onmessage. destruct (isPausedRef (st_app a)); [lia|].
    destruct m as [[|c b]|]; try lia.
    destruct (decodeAudioData (String c b)) as [d|] eqn:Hd; [|cbn; lia].
    destruct (schedule_spec currentTime d a) as (_ & -> & _).
    apply decoder_sound in Hd. unfold scheduled_chunk. cbn [start].
    destruct (Z.ltb_spec (nextStartTimeRef (st_app a)) currentTime); lia.
  - cbn. lia.
  - destruct (view_fields _ _ (proj1 (onaudioprocess_view inputData now a)))
      as (_ & _ & -> & _). lia.
  - cbn. lia.
Qed.

End Cursor.

(** X19.  With a decoder that yields no negative duration, the playback
    cursor never moves back along a run without a toggle: between a resume
    and the next pause it only advances. *)
Theorem cursor_only_advances (decodeAudioData : string -> option Z)
    (tr : list (Z * event)) (s : state) :
  sound_decoder decodeAudioData -> no_toggle tr = true ->
  nextStartTimeRef (st_app s) <= nextStartTimeRef (st_app (run decodeAudioData tr s)).
Proof.
  intros D. revert s. induction tr as [|[t e] tr IH]; intros s N; [cbn; lia|].
  cbn [no_toggle forallb snd] in N. apply andb_true_iff in N. destruct N as [Ne N].
  assert (Ne' : e <> TogglePause) by (intros ->; discriminate).
  cbn [run fold_left fst snd]. fold (run decodeAudioData tr (step decodeAudioData t e s)).
  pose proof (step_cursor decodeAudioData D t e s Ne').
  specialize (IH (step decodeAudioData t e s) N). lia.
Qed.

Example cursor_only_advances_witness :
  sound_decoder length_decoder /\
  nextStartTimeRef (st_app (init 0)) = 0 /\
  nextStartTimeRef (st_app queued) = 15 /\
  nextStartTimeRef (st_app (init 0)) <= nextStartTimeRef (st_app queued).
Proof.
  split; [exact length_decoder_sound|]. split; [reflexivity|].
  split; [vm_compute; reflexivity|].
  exact (cursor_only_advances length_decoder
           [(0, Open); (10, Message (Some "abc"%string) 5); (20, Message (Some "de"%string) 9);
            (30, Message (Some "fghi"%string) 9)]
           (init 0) length_decoder_sound eq_refl).
Defined.
